(** * Prebuilding packages for publishing: the tasks and the XcodeGen helper

    A shallow embedding of the expotools sources under
    [tools/expotools/src/publish-packages/tasks]: the task [cleanPrebuilds],
    the helper that turns a podspec into an XcodeGen project spec and runs
    the generator (kept in the same file), and the task [prebuildPackages].

    JavaScript strings are [string]: sequences of 8-bit code units.  Every
    character class the program names ([\w], [\d], [[A-Z]], the dot and the
    underscore) contains ASCII characters only, so a code unit above 127 is
    outside all of them.  Objects used as dictionaries with string keys are
    [gmap string _]; objects whose key order the program observes through
    [Object.keys] are association lists in declaration order. *)

From Stdlib Require Import Ascii String NArith.
From stdpp Require Import gmap strings list fin_maps.

Open Scope string_scope.

(** ** JavaScript values, strings and regular expressions *)

Module Js.

(** The values that occur in the configuration objects. *)
Inductive JsVal :=
| VUndef
| VStr (s : string)
| VNum (n : N).

#[export] Instance JsVal_eq_dec : EqDecision JsVal.
Proof. solve_decision. Defined.

(** Decimal digits of a number, as [String(n)] prints a non-negative
    integer that it prints in full: one below 10^21, which the major
    version of a manifest is. *)
Definition digit_of (n : N) : ascii := ascii_of_N (48 + n).

Fixpoint digits (fuel : nat) (n : N) (acc : string) : string :=
  match fuel with
  | O => acc
  | S fuel' =>
      let acc' := String (digit_of (n mod 10)) acc in
      if (n <? 10)%N then acc' else digits fuel' (n / 10)%N acc'
  end.

Definition string_of_N (n : N) : string :=
  digits (S (N.to_nat (N.log2 n))) n EmptyString.

(** String coercion, as [+] applies it to its operands. *)
Definition toString (v : JsVal) : string :=
  match v with
  | VUndef => "undefined"
  | VStr s => s
  | VNum n => string_of_N n
  end.

(** Property read: a missing key reads as [undefined].  (On a plain object
    a name of [Object.prototype] that is not an own key reads as that
    member, a function or an object: like [undefined] it is no string, the
    one thing that the program asks of the value it reads.) *)
Definition get (o : gmap string JsVal) (key : string) : JsVal :=
  default VUndef (o !! key).

(** [o[key] = v] on a plain object.  The key [__proto__] names the accessor
    of [Object.prototype]: its setter changes the prototype when [v] is an
    object and does nothing otherwise, and none of the values here is an
    object, so no property is stored under that key. *)
Definition assign (key : string) (v : JsVal) (o : gmap string JsVal)
  : gmap string JsVal :=
  if decide (key = "__proto__") then o else <[key := v]> o.

(** The names of the members of [Object.prototype], as Node has them. *)
Definition Object_prototype : list string :=
  [ "constructor";
    "__defineGetter__";
    "__defineSetter__";
    "hasOwnProperty";
    "__lookupGetter__";
    "__lookupSetter__";
    "isPrototypeOf";
    "propertyIsEnumerable";
    "toString";
    "valueOf";
    "__proto__";
    "toLocaleString" ].

(** What a property read on an object literal gives: the value of an own
    property, else the member of [Object.prototype] of that name, else
    [undefined]. *)
Inductive Member (V : Type) :=
| Own (v : V)
| Inherited (name : string)
| Undefined.
Arguments Own {V} v.
Arguments Inherited {V} name.
Arguments Undefined {V}.

(** [String(m)] for a member of [Object.prototype]: the text of a native
    function, and [[object Object]] for the prototype itself, which is what
    [__proto__] reads. *)
Definition member_text (name : string) : string :=
  if decide (name = "__proto__") then "[object Object]"
  else if decide (name = "constructor")
       then "function Object() { [native code] }"
       else "function " ++ name ++ "() { [native code] }".

(** *** Strings *)

Fixpoint startsWith (p s : string) : bool :=
  match p, s with
  | EmptyString, _ => true
  | String a p', String b s' => if decide (a = b) then startsWith p' s' else false
  | String _ _, EmptyString => false
  end.

(** [s.includes(p)] *)
Fixpoint includes (p s : string) : bool :=
  startsWith p s ||
  match s with
  | EmptyString => false
  | String _ s' => includes p s'
  end.

Fixpoint drop_str (n : nat) (s : string) : string :=
  match n, s with
  | S n', String _ s' => drop_str n' s'
  | _, _ => s
  end.

Fixpoint take_str (n : nat) (s : string) : string :=
  match n, s with
  | S n', String a s' => String a (take_str n' s')
  | _, _ => EmptyString
  end.

Fixpoint rev_str (s acc : string) : string :=
  match s with
  | EmptyString => acc
  | String a s' => rev_str s' (String a acc)
  end.

(** [arr.join(sep)] *)
Fixpoint join (sep : string) (l : list string) : string :=
  match l with
  | [] => EmptyString
  | [x] => x
  | x :: l' => x ++ sep ++ join sep l'
  end.

Definition code (a : ascii) : nat := nat_of_ascii a.

Definition in_range (lo hi : nat) (a : ascii) : bool :=
  (lo <=? code a)%nat && (code a <=? hi)%nat.

Definition is_upper : ascii → bool := in_range 65 90.    (* [A-Z] *)
Definition is_lower : ascii → bool := in_range 97 122.   (* [a-z] *)
Definition is_digit : ascii → bool := in_range 48 57.    (* \d *)
Definition is_char (c : ascii) (a : ascii) : bool := bool_decide (a = c).
Definition is_word (a : ascii) : bool :=                 (* \w *)
  is_upper a || is_lower a || is_digit a || is_char "_" a.
Definition is_space (a : ascii) : bool :=                (* \s *)
  in_range 9 13 a || is_char " " a || bool_decide (code a = 160).

(** [toLowerCase] on one code unit: the ASCII capitals and the Latin-1
    capitals move down by 32. *)
Definition is_capital (a : ascii) : bool :=
  is_upper a || (in_range 192 222 a && negb (bool_decide (code a = 215))).

Definition lower_char (a : ascii) : ascii :=
  if is_capital a then ascii_of_nat (code a + 32) else a.

Fixpoint toLowerCase (s : string) : string :=
  match s with
  | EmptyString => EmptyString
  | String a s' => String (lower_char a) (toLowerCase s')
  end.

Fixpoint drop_while (p : ascii → bool) (s : string) : string :=
  match s with
  | EmptyString => EmptyString
  | String a s' => if p a then drop_while p s' else s
  end.

Fixpoint take_while (p : ascii → bool) (s : string) : string :=
  match s with
  | EmptyString => EmptyString
  | String a s' => if p a then String a (take_while p s') else EmptyString
  end.

(** [s.trim()] *)
Definition trim (s : string) : string :=
  rev_str (drop_while is_space (rev_str (drop_while is_space s) EmptyString)) EmptyString.

(** [s.split(c)] for a one-character separator. *)
Fixpoint split_on (c : ascii) (s : string) : list string :=
  match s with
  | EmptyString => [EmptyString]
  | String a t =>
      if decide (a = c) then EmptyString :: split_on c t
      else match split_on c t with
           | x :: l => String a x :: l
           | [] => [String a EmptyString]
           end
  end.

Fixpoint last_char (s : string) : option ascii :=
  match s with
  | EmptyString => None
  | String a EmptyString => Some a
  | String _ t => last_char t
  end.

Definition is_empty (s : string) : bool :=
  match s with EmptyString => true | String _ _ => false end.

(** The code units of a string. *)
Fixpoint chars (s : string) : list ascii :=
  match s with
  | EmptyString => []
  | String a t => a :: chars t
  end.

(** *** Regular expressions

    The fragment of the regular-expression language that the program's
    literals use: character classes, sequence, alternation, the greedy star
    (and [r+] as [r r*]), capture groups, and the assertions [^] and [$]
    without the multiline flag.  Matching is by backtracking with a
    continuation, in the order the language prescribes: the left
    alternative first, the longest repetition first. *)

Inductive re :=
| Eps
| Chr (p : ascii → bool)
| Seq (r1 r2 : re)
| Alt (r1 r2 : re)
| Star (r : re)
| Group (n : nat) (r : re)
| Bol
| Eol.

Definition Plus (r : re) : re := Seq r (Star r).

(** The literal string [s], character by character. *)
Fixpoint Lit (s : string) : re :=
  match s with
  | EmptyString => Eps
  | String a s' => Seq (Chr (is_char a)) (Lit s')
  end.

Definition caps := list (nat * string).

(** A matcher state: whether the position is the start of the input, the
    rest of the input, and the captures so far. *)
Definition cont := bool → string → caps → option (string * caps).

(** The greedy repetition of [body]: one more iteration first, the
    continuation when that fails.  An iteration must consume input, so
    [fuel], the length of the rest of the input plus one, is never
    exhausted: any larger amount gives the same result
    ([JsFacts.star_loop_fuel]). *)
Fixpoint star_loop (body : cont → cont) (k : cont) (fuel : nat)
  (bol : bool) (s : string) (c : caps) {struct fuel} : option (string * caps) :=
  match fuel with
  | O => k bol s c
  | S fuel' =>
      match
        body (λ bol' s' c',
                if (String.length s' <? String.length s)%nat
                then star_loop body k fuel' bol' s' c' else None) bol s c
      with
      | Some x => Some x
      | None => k bol s c
      end
  end.

Fixpoint m (r : re) (k : cont) (bol : bool) (s : string) (c : caps)
  {struct r} : option (string * caps) :=
  match r with
  | Eps => k bol s c
  | Chr p =>
      match s with
      | String a t => if p a then k false t c else None
      | EmptyString => None
      end
  | Seq r1 r2 => m r1 (m r2 k) bol s c
  | Alt r1 r2 =>
      match m r1 k bol s c with
      | Some x => Some x
      | None => m r2 k bol s c
      end
  | Star r1 => star_loop (m r1) k (S (String.length s)) bol s c
  | Group n r1 =>
      m r1 (λ bol' s' c',
              k bol' s'
                ((n, take_str (String.length s - String.length s') s) :: c'))
        bol s c
  | Bol => if bol then k bol s c else None
  | Eol =>
      match s with
      | EmptyString => k bol s c
      | String _ _ => None
      end
  end.

(** A match attempt at one position: the rest of the input after the match
    and the captures. *)
Definition exec_at (r : re) (bol : bool) (s : string) : option (string * caps) :=
  m r (λ _ s' c', Some (s', c')) bol s [].

Fixpoint capture (n : nat) (c : caps) : string :=
  match c with
  | [] => EmptyString
  | (i, x) :: c' => if decide (i = n) then x else capture n c'
  end.

(** [s.replace(r, f)]: the positions are tried from left to right; with
    the [g] flag the search resumes after each match (one position further
    after an empty match), without it the first match is the only one
    replaced.  [f] receives the matched text and the captures.  The search
    moves forward at every step, so [fuel], the length of the input plus
    one, is enough ([JsFacts.scan_fuel]). *)
Fixpoint scan (g : bool) (r : re) (f : string → caps → string)
  (fuel : nat) (bol : bool) (s : string) : string :=
  match fuel with
  | O => s
  | S fuel' =>
      let step :=
        match s with
        | EmptyString => EmptyString
        | String a t => String a (scan g r f fuel' false t)
        end in
      match exec_at r bol s with
      | Some (rest, c) =>
          f (take_str (String.length s - String.length rest) s) c ++
          (if g then
             if (String.length rest <? String.length s)%nat
             then scan g r f fuel' false rest
             else step
           else rest)
      | None => step
      end
  end.

Definition replace (g : bool) (r : re) (f : string → caps → string)
  (s : string) : string :=
  scan g r f (S (String.length s)) true s.

(** A replacement given as a string without [$] patterns. *)
Definition by_string (x : string) : string → caps → string := λ _ _, x.

(** *** Sets

    A [Set] built from a list keeps the first occurrence of every element,
    in insertion order. *)
Definition set_add (acc : list string) (x : string) : list string :=
  if bool_decide (x ∈ acc) then acc else acc ++ [x].

Definition set_of (l : list string) : list string :=
  fold_left set_add l [].

(** *** The repetition of one character class, read directly

    Used to reason about [star_loop]: what the greedy repetition of a
    one-character body computes, by recursion on the input. *)

(** A matcher looks at its continuation only on what is left of the
    input. *)
Definition respects (body : cont → cont) : Prop :=
  ∀ k1 k2 s,
    (∀ b' s' c', (String.length s' ≤ String.length s)%nat →
                 k1 b' s' c' = k2 b' s' c') →
    ∀ b c, body k1 b s c = body k2 b s c.

(** The body of the repetition consumes one character of the class [p]
    and records [upd] in the captures. *)
Definition one_of (body : cont → cont) (p : ascii → bool)
  (upd : string → caps → caps) : Prop :=
  ∀ k b s c,
    body k b s c =
    match s with
    | String a t => if p a then k false t (upd s c) else None
    | EmptyString => None
    end.

Fixpoint greedy (p : ascii → bool) (upd : string → caps → caps) (k : cont)
  (b : bool) (s : string) (c : caps) : option (string * caps) :=
  match s with
  | String a t =>
      if p a then
        match greedy p upd k false t (upd s c) with
        | Some x => Some x
        | None => k b s c
        end
      else k b s c
  | EmptyString => k b s c
  end.

End Js.

(** ** The [path] module (POSIX flavour) *)

Module Path.
Import Js.

(** One segment of [normalizeString]: empty segments and [.] are skipped,
    [..] removes the segment before it, and is kept only where the path may
    climb above its start.  [res] holds the segments kept so far, the last
    one first. *)
Definition segment (allowAboveRoot : bool) (res : list string) (seg : string)
  : list string :=
  if decide (seg = EmptyString) then res
  else if decide (seg = ".") then res
  else if decide (seg = "..") then
    match res with
    | last :: res' =>
        if decide (last = "..")
        then (if allowAboveRoot then seg :: res else res)
        else res'
    | [] => if allowAboveRoot then [seg] else []
    end
  else seg :: res.

(** A segment that [segment] keeps as it is. *)
Definition plain (seg : string) : Prop :=
  seg ≠ EmptyString ∧ seg ≠ "." ∧ seg ≠ ".." ∧ "/"%char ∉ chars seg.

Definition normalizeString (path : string) (allowAboveRoot : bool) : string :=
  join "/" (rev (fold_left (segment allowAboveRoot) (split_on "/" path) [])).

Definition normalize (path : string) : string :=
  match path with
  | EmptyString => "."
  | String first _ =>
      let isAbsolute := bool_decide (first = "/"%char) in
      let trailingSeparator := bool_decide (last_char path = Some "/"%char) in
      let path := normalizeString path (negb isAbsolute) in
      if is_empty path then
        if isAbsolute then "/" else if trailingSeparator then "./" else "."
      else
        let path := if trailingSeparator then path ++ "/" else path in
        if isAbsolute then "/" ++ path else path
  end.

(** [path.join(...args)] *)
Definition join (args : list string) : string :=
  match filter (λ arg, negb (is_empty arg) = true) args with
  | [] => "."
  | parts => normalize (Js.join "/" parts)
  end.

(** [path.dirname(path)]: the trailing slashes and the last segment are
    dropped; the first character is never looked at as a separator. *)
Definition dirname (path : string) : string :=
  match path with
  | EmptyString => "."
  | String first t =>
      let hasRoot := bool_decide (first = "/"%char) in
      let before :=
        drop_while (λ a, negb (is_char "/" a))
          (drop_while (is_char "/") (rev_str t EmptyString)) in
      match before with
      | EmptyString => if hasRoot then "/" else "."
      | String _ before' =>
          if hasRoot && is_empty before' then "//"
          else String first (rev_str before' EmptyString)
      end
  end.

End Path.

(** ** The [semver] package *)

Module Semver.
Import Js.

Fixpoint number (s : string) (acc : N) : N :=
  match s with
  | EmptyString => acc
  | String a t => number t (10 * acc + (N_of_ascii a - 48))%N
  end.

Fixpoint all_digits (s : string) : bool :=
  match s with
  | EmptyString => true
  | String a t => is_digit a && all_digits t
  end.

(** A numeric identifier: [0], or digits that do not start with [0]. *)
Definition numeric (s : string) : option N :=
  match s with
  | EmptyString => None
  | String a t =>
      if all_digits s && (negb (is_char "0" a) || is_empty t)
      then Some (number s 0%N) else None
  end.

(** Modelled from the spec: [semver.major] comes from an imported package
    that is not among the sources; the specification calls its result the
    numeric major version of the manifest version.  A version is
    [major.minor.patch] in numeric identifiers, with an optional leading
    [v] and an optional pre-release or build suffix, which is not looked
    into here; on anything else the function throws, which is [None]. *)
Definition major (version : string) : option N :=
  let v := trim version in
  let v := match v with
           | String a t => if is_char "v" a then t else v
           | EmptyString => v
           end in
  let core := take_while (λ a, negb (is_char "-" a || is_char "+" a)) v in
  match split_on "." core with
  | [x; y; z] =>
      match numeric x, numeric y, numeric z with
      | Some n, Some _, Some _ => Some n
      | _, _, _ => None
      end
  | _ => None
  end.

End Semver.

(** ** Effects: a state and exception monad *)

Module IO.

Inductive outcome (W A : Type) :=
| Returned (a : A) (w : W)
| Thrown (w : W).
Arguments Returned {W A} a w.
Arguments Thrown {W A} w.

Definition io (W A : Type) : Type := W → outcome W A.

Definition ret {W A} (a : A) : io W A := λ w, Returned a w.

Definition bind {W A B} (c : io W A) (k : A → io W B) : io W B :=
  λ w, match c w with
       | Returned a w' => k a w'
       | Thrown w' => Thrown w'
       end.

Definition modify {W} (f : W → W) : io W unit := λ w, Returned tt (f w).

Fixpoint for_of {W A} (l : list A) (body : A → io W unit) : io W unit :=
  match l with
  | [] => ret tt
  | x :: l' => bind (body x) (λ _, for_of l' body)
  end.

End IO.

Notation "'await' c ;; k" := (IO.bind c (λ _, k))
  (at level 10, c at level 99, k at level 200).

(** ** The XcodeGen helper *)

Module XcodeGen.
Import Js IO.

Section WithConstants.

(** [IOS_DIR] and [EXPOTOOLS_DIR] come from [../Constants]. *)
Variable IOS_DIR : string.
Variable EXPOTOOLS_DIR : string.

Definition PODS_DIR : string := Path.join [IOS_DIR; "Pods"].
Definition PODS_PUBLIC_HEADERS_DIR : string :=
  Path.join [PODS_DIR; "Headers"; "Public"].

Inductive Platform := iOS | macOS | tvOS | watchOS.

Definition PLATFORMS_MAPPING : list (string * Platform) :=
  [ ("ios", iOS);
    ("osx", macOS);
    ("macos", macOS);
    ("tvos", tvOS);
    ("watchos", watchOS) ].

Definition INFO_PLIST_FILENAME : string := "Info-generated.plist".

(** The own property of an object kept in declaration order.  It is the
    property read [o[key]] where the key is one of [Object.keys(o)], or is
    no name of [Object.prototype]. *)
Fixpoint prop {V} (o : list (string * V)) (key : string) : option V :=
  match o with
  | [] => None
  | (k, v) :: o' => if decide (k = key) then Some v else prop o' key
  end.

(** [Object.keys(o)]: the keys in declaration order (none of them is an
    array index, which would come first). *)
Definition Object_keys {V} (o : list (string * V)) : list string := map fst o.

(** [o[key]] on an object literal: an own property, or what the key names
    in [Object.prototype]. *)
Definition read {V} (o : list (string * V)) (key : string) : Member V :=
  match prop o key with
  | Some v => Own v
  | None =>
      if bool_decide (key ∈ Object_prototype) then Inherited key
      else Undefined
  end.

(** What [PLATFORMS_MAPPING[platform]] gave, used as a property key. *)
Definition key_of (p : Member Platform) : string :=
  match p with
  | Own iOS => "iOS"
  | Own macOS => "macOS"
  | Own tvOS => "tvOS"
  | Own watchOS => "watchOS"
  | Inherited name => member_text name
  | Undefined => "undefined"
  end.

Definition str_or_undef (v : option string) : JsVal :=
  match v with
  | Some s => VStr s
  | None => VUndef
  end.

Record ProjectSpecSource := {
  path : string;
  name : option string;
  createIntermediateGroups : option bool;
  includes : option (list string);
  excludes : option (list string);
  compilerFlags : option string;
}.

Record ProjectSpecDependency := {
  framework : option string;
  implicit : option bool;
  target : option string;
  sdk : option string;
  embed : option bool;
  link : option bool;
  codeSign : option bool;
  removeHeaders : option bool;
  weak : option bool;
}.

(** [{ sdk: s }] *)
Definition sdk_dependency (s : string) : ProjectSpecDependency :=
  {| framework := None; implicit := None; target := None; sdk := Some s;
     embed := None; link := None; codeSign := None; removeHeaders := None;
     weak := None |}.

Record ProjectSpecOptions := {
  minimumXcodeGenVersion : string;
  deploymentTarget : gmap string JsVal;
}.

Record ProjectSpecSettings := {
  base : gmap string JsVal;
}.

Record ProjectSpecInfo := {
  info_path : string;
  properties : gmap string JsVal;
}.

Record ProjectSpecTarget := {
  type : string;
  platform : list (Member Platform);
  sources : option (list ProjectSpecSource);
  dependencies : option (list ProjectSpecDependency);
  target_settings : option ProjectSpecSettings;
  info : option ProjectSpecInfo;
}.

Record ProjectSpec := {
  spec_name : string;
  projectReferences : option (list (string * string));
  targets : option (list (string * ProjectSpecTarget));
  options : option ProjectSpecOptions;
  settings : option ProjectSpecSettings;
}.

(** A field that holds one value, an array of values, or nothing. *)
Inductive OneOrMany :=
| Missing
| One (value : string)
| Many (values : list string).

(** The fields of [Podspec] (from [../Packages]) that the helper reads. *)
Record Podspec := {
  podspec_name : string;
  version : string;
  platforms : list (string * string);
  podspec_dependencies : option (list (string * list string));
  source_files : OneOrMany;
  exclude_files : OneOrMany;
  frameworks : OneOrMany;
  compiler_flags : option string;
  pod_target_xcconfig : option (gmap string JsVal);
  info_plist : option (gmap string JsVal);
}.

(** Ensures the value is an array. *)
Definition arrayize (value : OneOrMany) : list string :=
  match value with
  | Many values => values
  | One value => [value]
  | Missing => []
  end.

(** The literal [/\\s*$\(inherited\)\s*/g]: a backslash, any number of
    [s], the end of the input, then the text [(inherited)] and white
    space. *)
Definition inherited_re : re :=
  Seq (Chr (is_char "\"))
    (Seq (Star (Chr (is_char "s")))
       (Seq Eol
          (Seq (Lit "(inherited)") (Star (Chr is_space))))).

Definition mergeXcodeConfigValue (prevValue nextValue : JsVal) : JsVal :=
  match prevValue with
  | VStr prev =>
      if negb (is_empty prev) && Js.includes "$(inherited)" prev
      then VStr ("$(inherited) " ++
                 replace true inherited_re (by_string " ")
                   (prev ++ " " ++ toString nextValue))
      else nextValue
  | _ => nextValue
  end.

(** Whether a value is a string that holds the token. *)
Definition contains_inherited (v : JsVal) : bool :=
  match v with
  | VStr s => Js.includes "$(inherited)" s
  | _ => false
  end.

(** Merges Xcode config from left to right. *)
Definition mergeXcodeConfigs (configs : list (gmap string JsVal))
  : gmap string JsVal :=
  fold_left
    (λ result config,
       map_fold
         (λ key value result,
            assign key (mergeXcodeConfigValue (get result key) value) result)
         result config)
    configs ∅.

(** The literals [/(\_|[^\w\d\.])+/g] and [/\.*([A-Z]+)/g]. *)
Definition separators_re : re :=
  Plus (Group 1
          (Alt (Chr (is_char "_"))
               (Chr (λ a, negb (is_word a || is_digit a || is_char "." a))))).

Definition capitals_re : re :=
  Seq (Star (Chr (is_char "."))) (Group 1 (Plus (Chr is_upper))).

(** Simple conversion from pod name to framework's bundle identifier. *)
Definition podNameToBundleId (podName : string) : string :=
  replace true capitals_re (λ _ c, "." ++ toLowerCase (capture 1 c))
    (replace true separators_re (by_string ".")
       (replace false (Seq Bol (Lit "EX")) (by_string "expo")
          (replace false (Seq Bol (Lit "UM")) (by_string "unimodules")
             podName))).

Definition is_truthy (v : option string) : bool :=
  match v with
  | Some s => negb (is_empty s)
  | None => false
  end.

Definition constructFrameworkSearchPaths (deps : list ProjectSpecDependency)
  : string :=
  let frameworks := filter (λ d, is_truthy (framework d) = true) deps in
  trim ("$(inherited) " ++
        join " " (map (λ d, Path.dirname (default EmptyString (framework d)))
                      frameworks)).

Definition quote : string := String "034"%char EmptyString.

Definition FIXED_PODS : list string :=
  [ "DoubleConversion";
    "React-callinvoker";
    "React-Core";
    "React-cxxreact";
    "React-jsi";
    "React-jsiexecutor";
    "React-jsinspector";
    "Yoga";
    "glog" ].

(** The set of pod names to include in header search paths. *)
Definition podsToSearchForHeaders (deps : list string) : list string :=
  set_of ([EmptyString] ++ deps ++ FIXED_PODS).

Definition header_path (podName : string) : string :=
  quote ++ Path.join [PODS_PUBLIC_HEADERS_DIR; podName] ++ quote.

Definition constructHeaderSearchPaths (deps : list string) : string :=
  trim ("$(inherited) " ++
        join " " (map header_path (podsToSearchForHeaders deps))).

(** Modelled from the spec: [mapAsync] comes from [../Utils], which is not
    among the sources.  The specification has every name resolved
    concurrently and the results collected in the original order; the
    resolver is a function of the name, so the results are its values in
    that order. *)
Definition mapAsync {A B} (l : list A) (f : A → B) : list B := map f l.

(** [filter(Boolean)] on an array of descriptors and nulls. *)
Fixpoint filter_Boolean {A} (l : list (option A)) : list A :=
  match l with
  | [] => []
  | Some x :: l' => x :: filter_Boolean l'
  | None :: l' => filter_Boolean l'
  end.

Definition or_empty (o : option (gmap string JsVal)) : gmap string JsVal :=
  default ∅ o.

(** Creates the [xcodegen] spec from the podspec.  The result is [None]
    when [semver.major] throws. *)
Definition createSpecFromPodspecAsync (podspec : Podspec)
  (dependencyResolver : string → option ProjectSpecDependency)
  : option ProjectSpec :=
  let platforms_ := Object_keys (platforms podspec) in
  (* The key assigned to is a platform name, [undefined] or the text of a
     member of [Object.prototype]: never [__proto__]. *)
  let deploymentTarget_ :=
    fold_left
      (λ acc platform,
         <[key_of (read PLATFORMS_MAPPING platform) :=
             str_or_undef (prop (platforms podspec) platform)]> acc)
      platforms_ (∅ : gmap string JsVal) in
  let dependenciesNames :=
    match podspec_dependencies podspec with
    | Some d => Object_keys d
    | None => []
    end in
  let dependencies_ :=
    filter_Boolean
      (mapAsync dependenciesNames
         (λ dependencyName, dependencyResolver dependencyName)) in
  let bundleId := podNameToBundleId (podspec_name podspec) in
  major ← Semver.major (version podspec);
  Some {|
    spec_name := podspec_name podspec;
    projectReferences := None;
    targets := Some [
      (podspec_name podspec,
       {| type := "framework";
          platform := map (λ platform, read PLATFORMS_MAPPING platform) platforms_;
          sources := Some [
            {| path := EmptyString;
               name := Some (podspec_name podspec);
               createIntermediateGroups := Some true;
               includes := Some (arrayize (source_files podspec));
               excludes := Some (
                 [ INFO_PLIST_FILENAME;
                   (podspec_name podspec ++ ".spec.json")%string;
                   "*.xcodeproj";
                   "*.xcframework";
                   "*.podspec" ] ++ arrayize (exclude_files podspec))%list;
               compilerFlags := compiler_flags podspec |} ];
          dependencies := Some (
            map (λ framework, sdk_dependency (framework ++ ".framework")%string)
                (arrayize (frameworks podspec))
            ++ dependencies_)%list;
          target_settings := Some {|
            base := mergeXcodeConfigs
                      [ or_empty (pod_target_xcconfig podspec);
                        {[ "MACH_O_TYPE" := VStr "staticlib" ]} ] |};
          info := Some {|
            info_path := INFO_PLIST_FILENAME;
            properties := mergeXcodeConfigs
              [ <[ "CFBundleVersion" := VNum major ]>
                  (<[ "CFBundleShortVersionString" := VStr (version podspec) ]>
                     (<[ "CFBundleName" := VStr (podspec_name podspec) ]>
                        {[ "CFBundleIdentifier" := VStr bundleId ]}));
                or_empty (info_plist podspec) ] |} |}) ];
    options := Some {|
      minimumXcodeGenVersion := "2.18.0";
      deploymentTarget := deploymentTarget_ |};
    settings := Some {|
      base :=
        <[ "VALIDATE_WORKSPACE_SKIPPED_SDK_FRAMEWORKS" :=
             VStr (join " " (arrayize (frameworks podspec))) ]>
          (<[ "HEADER_SEARCH_PATHS" :=
                VStr (constructHeaderSearchPaths dependenciesNames) ]>
             (<[ "FRAMEWORK_SEARCH_PATHS" :=
                   VStr (constructFrameworkSearchPaths dependencies_) ]>
                (<[ "IPHONEOS_DEPLOYMENT_TARGET" :=
                      str_or_undef (prop (platforms podspec) "ios") ]>
                   {[ "PRODUCT_BUNDLE_IDENTIFIER" := VStr bundleId ]}))) |}
  |}.

(** *** Reading a manifest and a project spec

    The declared dependency names and the translated platform name, as
    [createSpecFromPodspecAsync] computes them, and the parts of the
    result that the properties below are about: [spec.targets[spec.name]]
    and its fields, [spec.options.deploymentTarget]. *)

Definition declaredNames (podspec : Podspec) : list string :=
  match podspec_dependencies podspec with
  | Some d => Object_keys d
  | None => []
  end.

Definition translated (platform : string) : string :=
  key_of (read PLATFORMS_MAPPING platform).

Definition sdkDependencies (podspec : Podspec) : list ProjectSpecDependency :=
  map (λ framework, sdk_dependency (framework ++ ".framework")%string)
      (arrayize (frameworks podspec)).

Definition target_of (spec : ProjectSpec) : option ProjectSpecTarget :=
  ts ← targets spec; prop ts (spec_name spec).

Definition dependencies_of (spec : ProjectSpec)
  : option (list ProjectSpecDependency) :=
  t ← target_of spec; dependencies t.

Definition properties_of (spec : ProjectSpec) : option (gmap string JsVal) :=
  t ← target_of spec; i ← info t; Some (properties i).

Definition target_settings_of (spec : ProjectSpec)
  : option (gmap string JsVal) :=
  t ← target_of spec; st ← target_settings t; Some (base st).

Definition deploymentTarget_of (spec : ProjectSpec)
  : option (gmap string JsVal) :=
  o ← options spec; Some (deploymentTarget o).

(** The file system: the content of every file, by path. *)
Definition Files : Type := gmap string string.

(** [fs.outputJSON] writes the serialised value; the serialiser and the
    subprocess are the environment's. *)
Variable toJSON : ProjectSpec → string.
Variable spawnAsync : string → list string → string → io Files unit.

Definition outputJSON (file : string) (spec : ProjectSpec) : io Files unit :=
  modify (λ fs, <[file := toJSON spec]> fs).

Definition remove (file : string) : io Files unit :=
  modify (λ fs, delete file fs).

(** Generates [.xcodeproj] from given project spec and saves it at given
    dir. *)
Definition generateXcodeProjectAsync (dir : string) (spec : ProjectSpec)
  : io Files string :=
  let specPath := Path.join [dir; spec_name spec ++ ".spec.json"] in
  await outputJSON specPath spec ;;
  await spawnAsync "yarn"
          ["--silent"; "run"; "xcodegen"; "--quiet"; "--spec"; specPath]
          EXPOTOOLS_DIR ;;
  await remove specPath ;;
  ret (Path.join [dir; spec_name spec ++ ".xcodeproj"]).

End WithConstants.

End XcodeGen.

(** ** The publishing tasks *)

Module Tasks.
Import IO.

Section WithPreBuilder.

(** [Package] and [Parcel] come from [../../Packages] and [../types];
    [canPrebuildPackage] from [../../prebuilds/PreBuilder]; [green] is
    [chalk.green]. *)
Variable Package : Type.
Variable Parcel : Type.
Variable pkg : Parcel → Package.
Variable packageName : Package → string.
Variable canPrebuildPackage : Package → bool.
Variable green : string → string.

(** What a task does to the outside, in order: the logger's lines and the
    calls to the two operations of the pre-builder. *)
Inductive Effect :=
| logger_log
| logger_info (format : string) (args : list string)
| cleanFrameworks (packages : list Package)
| prebuildPackage (package : Package) (quiet : bool).

Definition emit (e : Effect) : io (list Effect) unit :=
  modify (λ trace, (trace ++ [e])%list).

(** [cleanFrameworksAsync] and [prebuildPackageAsync] come from
    [../../prebuilds/PreBuilder] too.  Each returns a promise that the task
    awaits: the call is made, and then it resolves or rejects, as the
    pre-builder has it.  [rejects trace call] tells that [call], made after
    [trace], rejects. *)
Variable rejects : list Effect → Effect → bool.

Definition awaited (call : Effect) : io (list Effect) unit :=
  λ trace,
    if rejects trace call then Thrown (trace ++ [call])%list
    else Returned tt (trace ++ [call])%list.

Definition cleanFrameworksAsync (packages : list Package)
  : io (list Effect) unit :=
  awaited (cleanFrameworks packages).

Definition prebuildPackageAsync (package : Package) (quiet : bool)
  : io (list Effect) unit :=
  awaited (prebuildPackage package quiet).

(** Cleans up after building prebuilds and publishing them. *)
Definition cleanPrebuilds (parcels : list Parcel) : io (list Effect) unit :=
  await emit logger_log ;;
  let packagesToClean :=
    filter (λ p, canPrebuildPackage p = true) (map pkg parcels) in
  if negb (length packagesToClean =? 0)%nat then
    await emit (logger_info "🧹 Cleaning prebuilt resources %s" []) ;;
    cleanFrameworksAsync packagesToClean
  else ret tt.

Definition prebuildPackages (parcels : list Parcel) : io (list Effect) unit :=
  await emit logger_log ;;
  for_of parcels
    (λ parcel,
       if negb (canPrebuildPackage (pkg parcel)) then ret tt
       else
         await emit (logger_info "👷‍♀️ Prebuilding %s"
                       [green (packageName (pkg parcel))]) ;;
         prebuildPackageAsync (pkg parcel) true).

(** What the loop of [prebuildPackages] does for one package. *)
Definition announced (package : Package) : list Effect :=
  [ logger_info "👷‍♀️ Prebuilding %s" [green (packageName package)];
    prebuildPackage package true ].

(** Whether the build of [package] rejects in a run of [prebuildPackages]
    that started after [trace] and has built the packages [before]. *)
Definition build_rejects (trace : list Effect) (before : list Package)
  (package : Package) : bool :=
  rejects
    (trace ++ logger_log :: flat_map announced before ++
     [logger_info "👷‍♀️ Prebuilding %s" [green (packageName package)]])%list
    (prebuildPackage package true).

(** Whether the clean operation rejects in a run of [cleanPrebuilds] that
    started after [trace]. *)
Definition clean_rejects (trace : list Effect) (packages : list Package)
  : bool :=
  rejects
    (trace ++ [logger_log; logger_info "🧹 Cleaning prebuilt resources %s" []])%list
    (cleanFrameworks packages).

End WithPreBuilder.

End Tasks.

(** ** The bundle identifier in words

    The rewriting that [podNameToBundleId] performs, written as recursive
    functions on the name rather than as regular expressions. *)

Module Words.
Import Js.

(** A prefix [p] of the name is replaced by [x]. *)
Definition replacePrefix (p x s : string) : string :=
  if startsWith p s then x ++ drop_str (String.length p) s else s.

(** Every maximal run of characters of the class [sep] becomes one dot;
    [in_run] tells that the character before was of the class. *)
Fixpoint collapseRuns (sep : ascii → bool) (in_run : bool) (s : string)
  : string :=
  match s with
  | EmptyString => EmptyString
  | String a t =>
      if sep a then
        if in_run then collapseRuns sep true t
        else String "." (collapseRuns sep true t)
      else String a (collapseRuns sep false t)
  end.

(** Whether the dots at the front of [s] are followed by a capital. *)
Definition capital_ahead (s : string) : bool :=
  match drop_while (is_char ".") s with
  | String b _ => is_upper b
  | EmptyString => false
  end.

(** Every maximal run of capitals, with the dots directly before it,
    becomes one dot and the run in lower case; [in_run] tells that the
    character before was a capital. *)
Fixpoint dotCapitals (in_run : bool) (s : string) : string :=
  match s with
  | EmptyString => EmptyString
  | String a t =>
      if is_upper a then
        if in_run then String (lower_char a) (dotCapitals true t)
        else String "." (String (lower_char a) (dotCapitals true t))
      else if is_char "." a && capital_ahead t then dotCapitals false t
      else String a (dotCapitals false t)
  end.

(** The class that the program collapses: the underscore, and what is
    neither a letter, a digit nor a dot. *)
Definition separator (a : ascii) : bool :=
  is_char "_" a ||
  negb (is_upper a || is_lower a || is_digit a || is_char "." a).

(** The class as the specification words it: the underscore, and what is
    not alphanumeric. *)
Definition underscore_or_non_alphanumeric (a : ascii) : bool :=
  is_char "_" a || negb (is_upper a || is_lower a || is_digit a).

Definition bundleId (sep : ascii → bool) (podName : string) : string :=
  dotCapitals false
    (collapseRuns sep false
       (replacePrefix "EX" "expo"
          (replacePrefix "UM" "unimodules" podName))).

(** The group that [separators_re] repeats, and the replacement that
    [podNameToBundleId] gives for [capitals_re]. *)
Definition separator_group : re :=
  Group 1
    (Alt (Chr (is_char "_"))
         (Chr (λ a, negb (is_word a || is_digit a || is_char "." a)))).

Definition dot_lower : string → caps → string :=
  λ _ c, "." ++ toLowerCase (capture 1 c).

(** The alphabets before and after the capitals are rewritten: letters,
    digits and dots; then lower-case letters, digits and dots. *)
Definition ok_in (a : ascii) : Prop :=
  (is_upper a || is_lower a || is_digit a || is_char "." a) = true.

Definition ok_out (a : ascii) : Prop :=
  (is_lower a || is_digit a || is_char "." a) = true.

End Words.

(** ** Reading more of a project spec and of a trace *)

Module Reading.
Import Js IO XcodeGen.

(** [spec.targets[spec.name].platform] and [spec.settings.base]. *)
Definition platform_of (spec : ProjectSpec) : option (list (Member Platform)) :=
  t ← target_of spec; Some (platform t).

Definition settings_of (spec : ProjectSpec) : option (gmap string JsVal) :=
  st ← settings spec; Some (base st).

(** [spec.targets[spec.name].sources] and [spec.targets[spec.name].info]. *)
Definition sources_of (spec : ProjectSpec) : option (list ProjectSpecSource) :=
  t ← target_of spec; sources t.

Definition info_of (spec : ProjectSpec) : option ProjectSpecInfo :=
  t ← target_of spec; info t.

(** The trace that a run ends with, whether it returns or throws. *)
Definition trace_of {W A} (o : outcome W A) : W :=
  match o with
  | Returned _ w => w
  | Thrown w => w
  end.

(** The packages that a trace hands to the prebuild operation, and those it
    hands to the clean operation, in order. *)
Fixpoint prebuilt {Package} (trace : list (Tasks.Effect Package))
  : list Package :=
  match trace with
  | [] => []
  | Tasks.prebuildPackage _ package _ :: trace' => package :: prebuilt trace'
  | _ :: trace' => prebuilt trace'
  end.

Fixpoint cleaned {Package} (trace : list (Tasks.Effect Package))
  : list Package :=
  match trace with
  | [] => []
  | Tasks.cleanFrameworks _ packages :: trace' => packages ++ cleaned trace'
  | _ :: trace' => cleaned trace'
  end.

(** A manifest for a platform that the mapping table does not know. *)
Definition headset : Podspec :=
  {| podspec_name := "EXHeadset";
     version := "1.0.0";
     platforms := [("visionos", "1.0")];
     podspec_dependencies := None;
     source_files := Missing;
     exclude_files := Missing;
     frameworks := Missing;
     compiler_flags := None;
     pod_target_xcconfig := None;
     info_plist := None |}.

End Reading.

(** ** Sample inputs *)

Module Samples.
Import Js IO XcodeGen.

Definition root : string := "/expo/ios".
Definition tools : string := "/expo/tools/expotools".

Definition target_dependency (name : string) : ProjectSpecDependency :=
  {| framework := None; implicit := None; target := Some name; sdk := None;
     embed := None; link := Some true; codeSign := None;
     removeHeaders := None; weak := None |}.

(** A resolver that knows [Y] and nothing else. *)
Definition only_Y (dependencyName : string) : option ProjectSpecDependency :=
  if decide (dependencyName = "Y") then Some (target_dependency "Y") else None.

Definition location : Podspec :=
  {| podspec_name := "EXLocation";
     version := "1.2.3";
     platforms := [("ios", "12.0")];
     podspec_dependencies := Some [("Z", []); ("Y", [])];
     source_files := One "Sources/**/*.m";
     exclude_files := Missing;
     frameworks := Many ["CoreLocation"];
     compiler_flags := None;
     pod_target_xcconfig := None;
     info_plist := None |}.

(** A manifest that names the desktop platform twice. *)
Definition desktop : Podspec :=
  {| podspec_name := "EXDesktop";
     version := "1.0.0";
     platforms := [("osx", "10.10"); ("macos", "10.15")];
     podspec_dependencies := None;
     source_files := Missing;
     exclude_files := Missing;
     frameworks := Missing;
     compiler_flags := None;
     pod_target_xcconfig := None;
     info_plist := None |}.

Definition phone_and_desktop : Podspec :=
  {| podspec_name := "EXBoth";
     version := "1.0.0";
     platforms := [("ios", "12.0"); ("osx", "10.15")];
     podspec_dependencies := None;
     source_files := Missing;
     exclude_files := Missing;
     frameworks := Missing;
     compiler_flags := None;
     pod_target_xcconfig := None;
     info_plist := None |}.

(** A manifest whose build settings inherit the output type. *)
Definition inheriting : Podspec :=
  {| podspec_name := "EXInheriting";
     version := "1.0.0";
     platforms := [("ios", "12.0")];
     podspec_dependencies := None;
     source_files := Missing;
     exclude_files := Missing;
     frameworks := Missing;
     compiler_flags := None;
     pod_target_xcconfig := Some {[ "MACH_O_TYPE" := VStr "$(inherited) x" ]};
     info_plist := None |}.

(** The manifest [location] with a bundle version of its own. *)
Definition versioned : Podspec :=
  {| podspec_name := "EXLocation";
     version := "1.2.3";
     platforms := [("ios", "12.0")];
     podspec_dependencies := Some [("Z", []); ("Y", [])];
     source_files := One "Sources/**/*.m";
     exclude_files := Missing;
     frameworks := Many ["CoreLocation"];
     compiler_flags := None;
     pod_target_xcconfig := None;
     info_plist := Some {[ "CFBundleVersion" := VStr "9" ]} |}.

(** A pre-builder whose operations all resolve, and one whose builds all
    reject. *)
Definition resolves (trace : list (Tasks.Effect string))
  (call : Tasks.Effect string) : bool := false.

Definition no_build (trace : list (Tasks.Effect string))
  (call : Tasks.Effect string) : bool :=
  match call with
  | Tasks.prebuildPackage _ _ _ => true
  | _ => false
  end.

Definition empty_spec : ProjectSpec :=
  {| spec_name := "EXLocation";
     projectReferences := None;
     targets := None;
     options := None;
     settings := None |}.

Definition json (spec : ProjectSpec) : string := "{}".

(** A generator that fails, and one that returns without producing
    anything; both leave the files as they are. *)
Definition failing (command : string) (args : list string) (cwd : string)
  : io Files unit :=
  λ fs, Thrown fs.

Definition idle (command : string) (args : list string) (cwd : string)
  : io Files unit :=
  ret tt.

End Samples.

(** * Properties *)

(** ** Strings and regular expressions *)

Module JsFacts.
Import Js.

Lemma length_drop_while p s :
  (String.length (drop_while p s) ≤ String.length s)%nat.
Proof.
  induction s as [|a t IH]; simpl; [lia|].
  destruct (p a); simpl; lia.
Qed.

Lemma length_tail a t :
  take_str (String.length (String a t) - String.length t) (String a t)
  = String a EmptyString.
Proof.
  assert ((String.length (String a t) - String.length t)%nat = 1%nat) as ->
    by (simpl; lia).
  done.
Qed.

Lemma take_drop_while p s :
  take_str (String.length s - String.length (drop_while p s)) s
  = take_while p s.
Proof.
  induction s as [|a t IH]; simpl; [done|].
  destruct (p a) eqn:Hp; simpl.
  - pose proof (length_drop_while p t).
    replace (S (String.length t) - String.length (drop_while p t))%nat
      with (S (String.length t - String.length (drop_while p t))) by lia.
    simpl. by rewrite IH.
  - by rewrite Nat.sub_diag.
Qed.

Lemma m_Star r k b s c :
  m (Star r) k b s c = star_loop (m r) k (S (String.length s)) b s c.
Proof. done. Qed.

Lemma m_Seq r1 r2 k b s c : m (Seq r1 r2) k b s c = m r1 (m r2 k) b s c.
Proof. done. Qed.

Lemma m_Group n r k b s c :
  m (Group n r) k b s c =
  m r (λ b' s' c',
         k b' s' ((n, take_str (String.length s - String.length s') s) :: c'))
    b s c.
Proof. done. Qed.

Lemma m_Chr p k b s c :
  m (Chr p) k b s c =
  match s with
  | String a t => if p a then k false t c else None
  | EmptyString => None
  end.
Proof. done. Qed.

(** *** Fuel *)

Lemma star_loop_respects body fuel :
  respects body → respects (λ k, star_loop body k fuel).
Proof.
  intros Hbody. induction fuel as [|fuel IH]; intros k1 k2 s Hk b c; simpl.
  - apply Hk. lia.
  - rewrite (Hbody _
               (λ b' s' c',
                  if (String.length s' <? String.length s)%nat
                  then star_loop body k2 fuel b' s' c' else None) s).
    + rewrite (Hk b s c) by lia. done.
    + intros b' s' c' Hlen.
      destruct (String.length s' <? String.length s)%nat; [|done].
      apply IH. intros b2 s2 c2 Hlen2. apply Hk. lia.
Qed.

Lemma m_respects r : respects (m r).
Proof.
  induction r as [|p|r1 IH1 r2 IH2|r1 IH1 r2 IH2|r IH|n r IH| |];
    intros k1 k2 s Hk b c.
  - apply Hk. lia.
  - simpl. destruct s as [|a t]; [done|]. destruct (p a); [|done].
    apply Hk. simpl. lia.
  - simpl. apply IH1. intros b' s' c' Hlen. apply IH2.
    intros b2 s2 c2 Hlen2. apply Hk. lia.
  - simpl. rewrite (IH1 k1 k2 s Hk), (IH2 k1 k2 s Hk). done.
  - rewrite !m_Star. by apply (star_loop_respects (m r) _ IH).
  - simpl. apply IH. intros b' s' c' Hlen. apply Hk. lia.
  - simpl. destruct b; [|done]. apply Hk. lia.
  - simpl. destruct s; [|done]. apply Hk. lia.
Qed.

(** More fuel than the length of the input changes nothing. *)
Lemma star_loop_fuel body k :
  respects body →
  ∀ fuel1 fuel2 b s c,
    (String.length s < fuel1)%nat → (String.length s < fuel2)%nat →
    star_loop body k fuel1 b s c = star_loop body k fuel2 b s c.
Proof.
  intros Hbody. induction fuel1 as [|fuel1 IH]; intros fuel2 b s c H1 H2;
    [lia|].
  destruct fuel2 as [|fuel2]; [lia|]. simpl.
  rewrite (Hbody _
             (λ b' s' c',
                if (String.length s' <? String.length s)%nat
                then star_loop body k fuel2 b' s' c' else None) s); [done|].
  intros b' s' c' Hlen.
  destruct (String.length s' <? String.length s)%nat eqn:Hlt; [|done].
  apply Nat.ltb_lt in Hlt. apply IH; lia.
Qed.

Lemma scan_fuel g r f :
  ∀ fuel1 fuel2 b s,
    (String.length s < fuel1)%nat → (String.length s < fuel2)%nat →
    scan g r f fuel1 b s = scan g r f fuel2 b s.
Proof.
  induction fuel1 as [|fuel1 IH]; intros fuel2 b s H1 H2; [lia|].
  destruct fuel2 as [|fuel2]; [lia|]. simpl.
  assert (match s with
          | EmptyString => EmptyString
          | String a t => String a (scan g r f fuel1 false t)
          end
          = match s with
            | EmptyString => EmptyString
            | String a t => String a (scan g r f fuel2 false t)
            end) as Hstep.
  { destruct s as [|a t]; [done|]. simpl in H1, H2.
    by rewrite (IH fuel2 false t) by lia. }
  rewrite Hstep.
  destruct (exec_at r b s) as [[rest c]|]; [|done].
  destruct g; [|done].
  destruct (String.length rest <? String.length s)%nat eqn:Hlt; [|done].
  apply Nat.ltb_lt in Hlt. by rewrite (IH fuel2 false rest) by lia.
Qed.

(** *** A continuation that never succeeds *)

Lemma star_loop_never (body : cont → cont) k :
  (∀ k', (∀ b s c, k' b s c = None) → ∀ b s c, body k' b s c = None) →
  (∀ b s c, k b s c = None) →
  ∀ fuel b s c, star_loop body k fuel b s c = None.
Proof.
  intros Hbody Hk. induction fuel as [|fuel IH]; intros b s c; simpl; [done|].
  rewrite Hbody; [done|].
  intros b' s' c'. destruct (_ <? _)%nat; [apply IH | done].
Qed.

Lemma m_never r : ∀ k,
  (∀ b s c, k b s c = None) → ∀ b s c, m r k b s c = None.
Proof.
  induction r as [|p|r1 IH1 r2 IH2|r1 IH1 r2 IH2|r IH|n r IH| |];
    intros k Hk b s c.
  - apply Hk.
  - simpl. destruct s as [|a t]; [done|]. by destruct (p a).
  - simpl. apply IH1. intros. by apply IH2.
  - simpl. rewrite IH1; [|done]. by apply IH2.
  - rewrite m_Star. by apply star_loop_never.
  - simpl. apply IH. intros. apply Hk.
  - simpl. by destruct b.
  - simpl. by destruct s.
Qed.

(** *** Replacement when no position matches *)

Lemma scan_no_match_later g r f :
  (∀ s, exec_at r false s = None) →
  ∀ fuel s, scan g r f fuel false s = s.
Proof.
  intros Hr. induction fuel as [|fuel IH]; intros s; simpl; [done|].
  rewrite Hr. destruct s as [|a t]; [done|]. by rewrite IH.
Qed.

Lemma replace_no_match g r f s :
  (∀ b s, exec_at r b s = None) → replace g r f s = s.
Proof.
  intros Hr. unfold replace. simpl. rewrite Hr.
  destruct s as [|a t]; [done|]. by rewrite scan_no_match_later.
Qed.

(** *** A literal at the start of the input *)

Lemma m_Lit p : ∀ k b s c,
  m (Lit p) k b s c =
  if startsWith p s
  then k (if is_empty p then b else false) (drop_str (String.length p) s) c
  else None.
Proof.
  induction p as [|a p IH]; intros k b s c; simpl.
  - by destruct s.
  - destruct s as [|x t]; [done|]. unfold is_char.
    destruct (decide (a = x)) as [->|Hne].
    + rewrite bool_decide_eq_true_2 by done. rewrite IH.
      by destruct (is_empty p).
    + rewrite bool_decide_eq_false_2 by congruence. done.
Qed.

Lemma replace_prefix p x s :
  replace false (Seq Bol (Lit p)) (by_string x) s = Words.replacePrefix p x s.
Proof.
  unfold replace, Words.replacePrefix, exec_at. simpl scan.
  unfold exec_at. simpl m. rewrite m_Lit.
  destruct (startsWith p s); [done|].
  destruct s as [|a t]; [done|].
  by rewrite scan_no_match_later.
Qed.

(** *** A repetition of one character class *)

Lemma star_loop_greedy body p upd k :
  one_of body p upd →
  ∀ fuel b s c, (String.length s < fuel)%nat →
    star_loop body k fuel b s c = greedy p upd k b s c.
Proof.
  intros Hbody. induction fuel as [|fuel IH]; intros b s c Hlen; [lia|].
  simpl. rewrite Hbody. destruct s as [|a t]; simpl; [done|].
  destruct (p a); [|done].
  assert ((String.length t <? S (String.length t))%nat = true) as ->
    by (apply Nat.ltb_lt; lia).
  rewrite IH; [done | simpl in Hlen; lia].
Qed.

Lemma one_of_Chr p : one_of (m (Chr p)) p (λ _ c, c).
Proof. intros k b s c. done. Qed.

(** With a continuation that accepts everything, the repetition takes the
    whole run. *)
Lemma greedy_accept p upd (F : string → caps → caps) b s c :
  ∃ c', greedy p upd (λ _ s' c', Some (s', F s' c')) b s c
        = Some (drop_while p s, c').
Proof.
  revert b c. induction s as [|a t IH]; intros b c; simpl; [eauto|].
  destruct (p a); [|eauto].
  destruct (IH false (upd (String a t) c)) as [c' ->]. eauto.
Qed.

Lemma greedy_accept_same p (F : string → caps → caps) b s c :
  greedy p (λ _ c, c) (λ _ s' c', Some (s', F s' c')) b s c
  = Some (drop_while p s, F (drop_while p s) c).
Proof.
  revert b. induction s as [|a t IH]; intros b; simpl; [done|].
  destruct (p a); [|done]. by rewrite IH.
Qed.

(** With a continuation that fails on every character of the class, the
    repetition takes the whole run or the match fails. *)
Lemma greedy_all_or_nothing p (k : cont) b s c :
  (∀ b a t c, p a = true → k b (String a t) c = None) →
  (∀ b b' s c, k b s c = k b' s c) →
  greedy p (λ _ c, c) k b s c = k b (drop_while p s) c.
Proof.
  intros Hk Hb. revert b. induction s as [|a t IH]; intros b; simpl; [done|].
  destruct (p a) eqn:Hp; [|done].
  rewrite IH. rewrite (Hk b a t c Hp).
  rewrite (Hb false b). by destruct (k b (drop_while p t) c).
Qed.

End JsFacts.

(** ** The bundle identifier *)

Module BundleId.
Import Js JsFacts XcodeGen Words.

(** The class of the literal, [\_] or [[^\w\d\.]], is [separator]. *)
Lemma separator_literal a :
  separator a
  = is_char "_" a || negb (is_word a || is_digit a || is_char "." a).
Proof.
  destruct a as [[] [] [] [] [] [] [] []]; vm_compute; reflexivity.
Qed.

Lemma separator_group_one_of :
  one_of (m separator_group) separator
    (λ s c, (1%nat, take_str 1 s) :: c).
Proof.
  intros k b s c. unfold separator_group. simpl.
  destruct s as [|a t]; [done|]. rewrite separator_literal.
  rewrite length_tail.
  destruct (is_char "_" a) eqn:Hu; simpl.
  - destruct (k false t _) eqn:Hk; [done|].
    assert (is_word a = true) as ->
      by (unfold is_word; rewrite Hu; apply orb_true_r).
    done.
  - done.
Qed.

Lemma exec_separators b s :
  fst <$> exec_at separators_re b s =
  match s with
  | String a t => if separator a then Some (drop_while separator t) else None
  | EmptyString => None
  end.
Proof.
  unfold exec_at, separators_re, Plus. fold separator_group.
  rewrite m_Seq, separator_group_one_of.
  destruct s as [|a t]; [done|].
  destruct (separator a); [|done].
  rewrite m_Star.
  rewrite (star_loop_greedy _ _ _ _ separator_group_one_of) by lia.
  destruct (greedy_accept separator (λ s c, (1%nat, take_str 1 s) :: c)
              (λ _ c, c) false t ((1%nat, take_str 1 (String a t)) :: []))
    as [c' ->].
  done.
Qed.

Lemma collapseRuns_drop sep t :
  collapseRuns sep true t = collapseRuns sep false (drop_while sep t).
Proof.
  induction t as [|a t IH]; simpl; [done|].
  destruct (sep a) eqn:Ha; [done|]. simpl. by rewrite Ha.
Qed.

Lemma scan_separators fuel : ∀ b s,
  (String.length s < fuel)%nat →
  scan true separators_re (by_string ".") fuel b s
  = collapseRuns separator false s.
Proof.
  induction fuel as [|fuel IH]; intros b s Hlen; [lia|].
  simpl. pose proof (exec_separators b s) as He.
  destruct s as [|a t]; simpl in *.
  - by destruct (exec_at separators_re b EmptyString) as [[? ?]|].
  - destruct (separator a) eqn:Ha.
    + destruct (exec_at separators_re b (String a t)) as [[rest c]|];
        [|done].
      simpl in He. injection He as ->.
      pose proof (length_drop_while separator t).
      rewrite (proj2 (Nat.ltb_lt _ _)) by lia.
      rewrite IH by lia. unfold by_string. simpl.
      by rewrite collapseRuns_drop.
    + destruct (exec_at separators_re b (String a t)) as [[rest c]|];
        [done|].
      rewrite IH by lia. done.
Qed.

Lemma replace_separators s :
  replace true separators_re (by_string ".") s
  = collapseRuns separator false s.
Proof. apply scan_separators. lia. Qed.

(** The capitals *)

Lemma dot_not_upper a : is_char "." a = true → is_upper a = false.
Proof. unfold is_char. intros ->%bool_decide_eq_true. done. Qed.

Lemma capital_run b s c :
  m (Group 1 (Plus (Chr is_upper))) (λ _ s' c', Some (s', c')) b s c =
  match s with
  | String a t =>
      if is_upper a
      then Some (drop_while is_upper t,
                 (1%nat, String a (take_while is_upper t)) :: c)
      else None
  | EmptyString => None
  end.
Proof.
  unfold Plus. rewrite m_Group, m_Seq, m_Chr.
  destruct s as [|a t]; [done|].
  destruct (is_upper a) eqn:Ha; [|done].
  rewrite m_Star.
  rewrite (star_loop_greedy _ _ _ _ (one_of_Chr is_upper)) by lia.
  rewrite (greedy_accept_same is_upper
             (λ s' c', (1%nat,
                        take_str (String.length (String a t) - String.length s')
                          (String a t)) :: c')).
  pose proof (take_drop_while is_upper (String a t)) as Ht.
  simpl drop_while in Ht. simpl take_while in Ht. rewrite Ha in Ht.
  by rewrite Ht.
Qed.

Lemma exec_capitals b s :
  exec_at capitals_re b s =
  match drop_while (is_char ".") s with
  | String a t =>
      if is_upper a
      then Some (drop_while is_upper t,
                 [(1%nat, String a (take_while is_upper t))])
      else None
  | EmptyString => None
  end.
Proof.
  unfold exec_at, capitals_re. rewrite m_Seq, m_Star.
  rewrite (star_loop_greedy _ _ _ _ (one_of_Chr (is_char "."))) by lia.
  rewrite greedy_all_or_nothing.
  - apply capital_run.
  - intros b' a t c Ha. rewrite capital_run. by rewrite dot_not_upper.
  - intros b1 b2 s' c. by rewrite !capital_run.
Qed.

Lemma dotCapitals_run t :
  dotCapitals true t
  = toLowerCase (take_while is_upper t)
    ++ dotCapitals false (drop_while is_upper t).
Proof.
  induction t as [|a t IH]; simpl; [done|].
  destruct (is_upper a) eqn:Ha; simpl.
  - by rewrite IH.
  - by rewrite Ha.
Qed.

Lemma dotCapitals_ahead t : ∀ b u,
  drop_while (is_char ".") t = String b u → is_upper b = true →
  dotCapitals false t = String "." (String (lower_char b) (dotCapitals true u)).
Proof.
  induction t as [|a t IH]; intros b u Hd Hb; simpl in *; [done|].
  destruct (is_char "." a) eqn:Ha.
  - rewrite (dot_not_upper _ Ha). simpl.
    unfold capital_ahead. rewrite Hd, Hb. by apply IH.
  - injection Hd as -> ->. by rewrite Hb.
Qed.

Lemma scan_capitals fuel : ∀ b s,
  (String.length s < fuel)%nat →
  scan true capitals_re dot_lower fuel b s = dotCapitals false s.
Proof.
  induction fuel as [|fuel IH]; intros b s Hlen; [lia|].
  simpl scan. rewrite exec_capitals.
  destruct s as [|a t]; [done|]. simpl in Hlen.
  simpl drop_while. simpl dotCapitals.
  destruct (is_upper a) eqn:Ha.
  - assert (is_char "." a = false) as ->.
    { destruct (is_char "." a) eqn:Hd; [|done].
      by rewrite (dot_not_upper _ Hd) in Ha. }
    rewrite Ha.
    pose proof (length_drop_while is_upper t).
    rewrite (proj2 (Nat.ltb_lt _ _)) by (simpl; lia).
    rewrite IH by lia. unfold dot_lower. simpl.
    by rewrite dotCapitals_run.
  - destruct (is_char "." a) eqn:Hd; simpl.
    + unfold capital_ahead.
      pose proof (length_drop_while (is_char ".") t) as Hl.
      destruct (drop_while (is_char ".") t) as [|x u] eqn:Ht.
      * rewrite IH by lia. done.
      * destruct (is_upper x) eqn:Hx.
        -- pose proof (length_drop_while is_upper u). simpl in Hl.
           rewrite (proj2 (Nat.ltb_lt _ _)) by (simpl; lia).
           rewrite IH by lia. unfold dot_lower. simpl.
           rewrite (dotCapitals_ahead t x u Ht Hx).
           by rewrite dotCapitals_run.
        -- rewrite IH by lia. done.
    + rewrite Ha. rewrite IH by lia. done.
Qed.

Lemma replace_capitals s :
  replace true capitals_re dot_lower s = dotCapitals false s.
Proof. apply scan_capitals. lia. Qed.

(** The program's function is the rewriting in words, with the class of
    its literal. *)
Lemma podNameToBundleId_words podName :
  podNameToBundleId podName = bundleId separator podName.
Proof.
  unfold podNameToBundleId, bundleId.
  rewrite !replace_prefix, replace_separators.
  apply replace_capitals.
Qed.

End BundleId.

(** ** The alphabet of a bundle identifier *)

Module Alphabet.
Import Js JsFacts XcodeGen Words.

Lemma lower_char_upper a : is_upper a = true → ok_out (lower_char a).
Proof.
  destruct a as [[] [] [] [] [] [] [] []]; vm_compute; congruence.
Qed.

Lemma ok_in_out a : ok_in a → is_upper a = false → ok_out a.
Proof.
  unfold ok_in, ok_out. intros H Hu. rewrite Hu in H. done.
Qed.

Lemma ok_out_spec a :
  ok_out a → is_capital a = false ∧ a ≠ "_"%char.
Proof.
  destruct a as [[] [] [] [] [] [] [] []]; vm_compute; split; congruence.
Qed.

Lemma not_separator a : separator a = false → ok_in a.
Proof.
  destruct a as [[] [] [] [] [] [] [] []]; vm_compute; congruence.
Qed.

Lemma collapseRuns_alphabet in_run s :
  Forall ok_in (chars (collapseRuns separator in_run s)).
Proof.
  revert in_run. induction s as [|a t IH]; intros in_run; simpl; [done|].
  destruct (separator a) eqn:Ha.
  - destruct in_run; [apply IH|]. simpl. constructor; [done | apply IH].
  - simpl. constructor; [by apply not_separator | apply IH].
Qed.

Lemma dotCapitals_alphabet s : ∀ in_run,
  Forall ok_in (chars s) → Forall ok_out (chars (dotCapitals in_run s)).
Proof.
  induction s as [|a t IH]; intros in_run Hs; simpl; [done|].
  simpl in Hs. apply Forall_cons in Hs as [Ha Ht].
  destruct (is_upper a) eqn:Hu.
  - destruct in_run; simpl; repeat constructor;
      auto using lower_char_upper.
  - destruct (is_char "." a && capital_ahead t); [by apply IH|].
    simpl. constructor; [by apply ok_in_out | by apply IH].
Qed.

Lemma bundleId_alphabet podName :
  Forall ok_out (chars (podNameToBundleId podName)).
Proof.
  rewrite BundleId.podNameToBundleId_words. unfold bundleId.
  apply dotCapitals_alphabet, collapseRuns_alphabet.
Qed.

End Alphabet.

(** ** Merging configurations *)

Module Merge.
Import Js JsFacts XcodeGen.

Lemma exec_inherited b s : exec_at inherited_re b s = None.
Proof.
  unfold exec_at, inherited_re. rewrite m_Seq. apply m_never.
  intros b1 s1 c1. rewrite m_Seq. apply m_never.
  intros b2 s2 c2. rewrite m_Seq. simpl. by destruct s2.
Qed.

(** The literal matches nowhere, so the replacement changes nothing. *)
Lemma replace_inherited s :
  replace true inherited_re (by_string " ") s = s.
Proof. apply replace_no_match, exec_inherited. Qed.

Lemma includes_nonempty p s :
  is_empty p = false → Js.includes p s = true → is_empty s = false.
Proof. destruct p; [done|]. by destruct s. Qed.

Lemma mergeXcodeConfigValue_inherited prev next :
  Js.includes "$(inherited)" prev = true →
  mergeXcodeConfigValue (VStr prev) next
  = VStr ("$(inherited) " ++ prev ++ " " ++ toString next).
Proof.
  intros H. unfold mergeXcodeConfigValue.
  rewrite (includes_nonempty "$(inherited)" prev eq_refl H), H. simpl negb. simpl andb.
  cbv iota. by rewrite replace_inherited.
Qed.

Lemma mergeXcodeConfigValue_plain prev next :
  contains_inherited prev = false → mergeXcodeConfigValue prev next = next.
Proof.
  destruct prev as [|s|n]; simpl; [done| |done].
  intros ->. by rewrite andb_false_r.
Qed.

(** One configuration merged into the result so far, key by key: nothing
    is stored under [__proto__]. *)
Lemma merge_into_lookup (result config : gmap string JsVal) key :
  map_fold
    (λ key value result,
       assign key (mergeXcodeConfigValue (get result key) value) result)
    result config !! key
  = match config !! key with
    | Some value =>
        if decide (key = "__proto__") then result !! key
        else Some (mergeXcodeConfigValue (get result key) value)
    | None => result !! key
    end.
Proof.
  revert key.
  apply (map_fold_weak_ind
           (λ r (m : gmap string JsVal), ∀ key,
              r !! key = match m !! key with
                         | Some value =>
                             if decide (key = "__proto__") then result !! key
                             else Some (mergeXcodeConfigValue
                                          (get result key) value)
                         | None => result !! key
                         end)).
  - intros key. by rewrite lookup_empty.
  - intros i x m r Hi IH key. unfold assign.
    destruct (decide (i = key)) as [->|Hne].
    + rewrite lookup_insert_eq. pose proof (IH key) as Hr. rewrite Hi in Hr.
      destruct (decide (key = "__proto__")); [exact Hr|].
      rewrite lookup_insert_eq. unfold get. by rewrite Hr.
    + rewrite (lookup_insert_ne m) by done.
      destruct (decide (i = "__proto__")); [apply IH|].
      rewrite lookup_insert_ne by done. apply IH.
Qed.

Lemma merge_into_no_proto (configs : list (gmap string JsVal)) :
  ∀ result : gmap string JsVal,
    result !! "__proto__" = None →
    fold_left
      (λ result config,
         map_fold
           (λ key value result,
              assign key (mergeXcodeConfigValue (get result key) value) result)
           result config)
      configs result !! "__proto__" = None.
Proof.
  induction configs as [|config configs IH]; intros result Hr; [done|].
  simpl. apply IH. rewrite merge_into_lookup.
  destruct (config !! "__proto__"); [|done]. by rewrite decide_True.
Qed.

(** The result of a merge has no key [__proto__]. *)
Lemma merge_no_proto (configs : list (gmap string JsVal)) :
  mergeXcodeConfigs configs !! "__proto__" = None.
Proof. apply merge_into_no_proto, lookup_empty. Qed.

Lemma mergeXcodeConfigs_snoc earlier later key :
  key ≠ "__proto__" →
  mergeXcodeConfigs (earlier ++ [later]) !! key
  = match later !! key with
    | Some value =>
        Some (mergeXcodeConfigValue (get (mergeXcodeConfigs earlier) key)
                value)
    | None => mergeXcodeConfigs earlier !! key
    end.
Proof.
  intros Hkey. unfold mergeXcodeConfigs. rewrite fold_left_app. simpl.
  rewrite merge_into_lookup.
  destruct (later !! key); [by rewrite decide_False | done].
Qed.

(** A number that the first of two configurations holds, and what the
    second has for its key. *)
Lemma merge_over_number (computed given : gmap string JsVal) key n :
  key ≠ "__proto__" →
  computed !! key = Some (VNum n) →
  mergeXcodeConfigs [computed; given] !! key
  = Some (default (VNum n) (given !! key)).
Proof.
  intros Hkey Hn.
  assert (mergeXcodeConfigs [computed] !! key = Some (VNum n)) as Hfirst.
  { pose proof (mergeXcodeConfigs_snoc [] computed key Hkey) as H.
    simpl app in H. by rewrite H, Hn. }
  pose proof (mergeXcodeConfigs_snoc [computed] given key Hkey) as H.
  simpl app in H. rewrite H. unfold get. rewrite Hfirst.
  by destruct (given !! key).
Qed.

End Merge.

(** ** The translation of a manifest *)

Module Translator.
Import Js JsFacts XcodeGen.

Lemma filter_Boolean_omap {A B} (f : A → option B) l :
  filter_Boolean (mapAsync l f) = omap f l.
Proof.
  unfold mapAsync. induction l as [|x l IH]; simpl; [done|].
  destruct (f x); by rewrite IH.
Qed.

Lemma omap_sublist {A B} (f : A → option B) l :
  (Some <$> omap f l) `sublist_of` (f <$> l).
Proof.
  induction l as [|x l IH]; simpl; [constructor|].
  destruct (f x); simpl; by constructor.
Qed.

(** Assignments in sequence: the last one to a key is the one read. *)
Lemma fold_insert_other {A} (K : A → string) (V : A → JsVal) l :
  ∀ (acc : gmap string JsVal) k,
    (∀ q, q ∈ l → K q ≠ k) →
    fold_left (λ acc q, <[K q := V q]> acc) l acc !! k = acc !! k.
Proof.
  induction l as [|x l IH]; intros acc k Hk; simpl; [done|].
  rewrite IH by (intros q Hq; apply Hk; by right).
  apply lookup_insert_ne, Hk. by left.
Qed.

Lemma fold_insert_last {A} (K : A → string) (V : A → JsVal) l1 p l2
  (acc : gmap string JsVal) :
  (∀ q, q ∈ l2 → K q ≠ K p) →
  fold_left (λ acc q, <[K q := V q]> acc) (l1 ++ p :: l2) acc !! K p
  = Some (V p).
Proof.
  intros Hk. rewrite fold_left_app. simpl.
  rewrite fold_insert_other by done. apply lookup_insert_eq.
Qed.

Lemma prop_middle {V} (before : list (string * V)) key v after :
  key ∉ Object_keys before →
  prop (before ++ (key, v) :: after) key = Some v.
Proof.
  induction before as [|[k x] before IH]; intros Hk; simpl.
  - by rewrite decide_True.
  - rewrite decide_False.
    + apply IH. intros Hin. apply Hk. by right.
    + intros ->. apply Hk. by left.
Qed.

(** The translation returns whenever the version is one that
    [semver.major] accepts, and then its parts are these. *)
Lemma createSpec_parts IOS_DIR podspec resolver n :
  Semver.major (version podspec) = Some n →
  ∃ spec,
    createSpecFromPodspecAsync IOS_DIR podspec resolver = Some spec ∧
    dependencies_of spec
    = Some (sdkDependencies podspec ++ omap resolver (declaredNames podspec))%list ∧
    properties_of spec
    = Some (mergeXcodeConfigs
              [ <[ "CFBundleVersion" := VNum n ]>
                  (<[ "CFBundleShortVersionString" := VStr (version podspec) ]>
                     (<[ "CFBundleName" := VStr (podspec_name podspec) ]>
                        {[ "CFBundleIdentifier" :=
                             VStr (podNameToBundleId (podspec_name podspec)) ]}));
                or_empty (info_plist podspec) ]) ∧
    deploymentTarget_of spec
    = Some (fold_left
              (λ acc platform,
                 <[translated platform :=
                     str_or_undef (prop (platforms podspec) platform)]> acc)
              (Object_keys (platforms podspec)) ∅).
Proof.
  intros Hn. unfold createSpecFromPodspecAsync. rewrite Hn. simpl.
  eexists. split; [done|].
  unfold dependencies_of, properties_of, deploymentTarget_of, target_of.
  simpl. rewrite decide_True by done. simpl.
  rewrite filter_Boolean_omap. done.
Qed.

End Translator.

(** ** Search paths *)

Module SearchPaths.
Import Js XcodeGen.

(** *** Sets *)

Lemma fold_set_add l : ∀ acc,
  NoDup acc →
  NoDup (fold_left set_add l acc) ∧
  (∀ x, x ∈ fold_left set_add l acc ↔ x ∈ acc ∨ x ∈ l) ∧
  ∃ more, fold_left set_add l acc = (acc ++ more)%list.
Proof.
  induction l as [|y l IH]; intros acc Hacc; simpl.
  - split; [done|]. split.
    + intros x. rewrite elem_of_nil. tauto.
    + exists []. by rewrite app_nil_r.
  - unfold set_add at 2 4 6. case_bool_decide as Hy.
    + destruct (IH acc Hacc) as (Hn & Hin & more & Hm).
      split; [done|]. split; [|by exists more].
      intros x. rewrite Hin, elem_of_cons.
      split; [tauto|]. intros [?|[->|?]]; auto.
    + assert (NoDup (acc ++ [y])) as Hacc'.
      { apply NoDup_app. split; [done|]. split.
        - intros x Hx ->%list_elem_of_singleton. done.
        - apply NoDup_singleton. }
      destruct (IH _ Hacc') as (Hn & Hin & more & Hm).
      split; [done|]. split.
      * intros x. rewrite Hin, elem_of_app, list_elem_of_singleton,
          elem_of_cons. tauto.
      * exists (y :: more). rewrite Hm. by rewrite <- app_assoc.
Qed.

Lemma set_of_NoDup l : NoDup (set_of l).
Proof. apply fold_set_add. constructor. Qed.

Lemma set_of_elem l x : x ∈ set_of l ↔ x ∈ l.
Proof.
  unfold set_of. destruct (fold_set_add l [] (NoDup_nil_2)) as (_ & Hin & _).
  rewrite Hin, elem_of_nil. tauto.
Qed.

Lemma set_of_head x l : ∃ more, set_of (x :: l) = x :: more.
Proof.
  unfold set_of. simpl. unfold set_add at 2. simpl.
  destruct (fold_set_add l [x]) as (_ & _ & more & ->).
  - apply NoDup_singleton.
  - by exists more.
Qed.

(** *** Trimming *)

Lemma append_cons a t s : String a t ++ s = String a (t ++ s).
Proof. done. Qed.

Lemma append_assoc s1 s2 s3 : (s1 ++ s2) ++ s3 = s1 ++ s2 ++ s3.
Proof.
  induction s1 as [|a t IH]; [done|]. by rewrite !append_cons, IH.
Qed.

Lemma append_empty s : s ++ EmptyString = s.
Proof.
  induction s as [|a t IH]; [done|]. by rewrite append_cons, IH.
Qed.

Lemma rev_str_rev s : ∀ acc acc',
  rev_str (rev_str s acc) acc' = rev_str acc (s ++ acc').
Proof.
  induction s as [|a t IH]; intros acc acc'; simpl; [done|].
  by rewrite IH.
Qed.

Lemma rev_str_head s : ∀ acc c,
  last_char s = Some c → ∃ r, rev_str s acc = String c r.
Proof.
  induction s as [|a t IH]; intros acc c Hc; [done|].
  destruct t as [|b t'].
  - injection Hc as ->. simpl. eauto.
  - change (rev_str (String a (String b t')) acc)
      with (rev_str (String b t') (String a acc)).
    apply IH. exact Hc.
Qed.

(** A string that neither starts nor ends with white space is left as it
    is. *)
Lemma trim_id a t c :
  is_space a = false → last_char (String a t) = Some c →
  is_space c = false → trim (String a t) = String a t.
Proof.
  intros Ha Hc Hsp. unfold trim. simpl drop_while. rewrite Ha.
  destruct (rev_str_head (String a t) EmptyString c Hc) as [r Hr].
  rewrite Hr. simpl drop_while. rewrite Hsp. rewrite <- Hr.
  rewrite rev_str_rev. simpl rev_str. by rewrite append_empty.
Qed.

Lemma last_char_app s t :
  is_empty t = false → last_char (s ++ t) = last_char t.
Proof.
  intros Ht. induction s as [|a s IH]; [done|].
  rewrite append_cons. simpl. rewrite IH. destruct (s ++ t) eqn:E; [|done].
  destruct s; [|done]. change (t = EmptyString) in E. by subst.
Qed.

Lemma trim_token rest c :
  last_char rest = Some c → is_space c = false →
  trim ("$(inherited) " ++ rest) = "$(inherited) " ++ rest.
Proof.
  intros Hc Hsp.
  change ("$(inherited) " ++ rest) with (String "$" ("(inherited) " ++ rest)).
  apply (trim_id _ _ c); [done| |done].
  change (String "$" ("(inherited) " ++ rest)) with ("$(inherited) " ++ rest).
  rewrite last_char_app; [done|]. by destruct rest.
Qed.

Lemma last_char_nonempty s c : last_char s = Some c → is_empty s = false.
Proof. by destruct s. Qed.

Lemma last_char_join sep c l x :
  (∀ y, y ∈ x :: l → last_char y = Some c) →
  last_char (join sep (x :: l)) = Some c.
Proof.
  revert x. induction l as [|y l IH]; intros x Hl.
  - simpl. apply Hl. by left.
  - change (join sep (x :: y :: l)) with (x ++ sep ++ join sep (y :: l)).
    assert (last_char (join sep (y :: l)) = Some c) as Hj.
    { apply IH. intros z Hz. apply Hl. by right. }
    rewrite last_char_app.
    + rewrite last_char_app; [done|]. by eapply last_char_nonempty.
    + destruct sep; simpl; [by eapply last_char_nonempty | done].
Qed.

Lemma startsWith_app p r : startsWith p (p ++ r) = true.
Proof.
  induction p as [|a p IH]; [done|]. rewrite append_cons. simpl.
  by rewrite decide_True.
Qed.

Lemma join_head sep x l : ∃ tail, join sep (x :: l) = x ++ tail.
Proof.
  destruct l as [|y l].
  - exists EmptyString. simpl. by rewrite append_empty.
  - by exists (sep ++ join sep (y :: l)).
Qed.

Lemma startsWith_join pre sep x l :
  startsWith (pre ++ x) (pre ++ join sep (x :: l)) = true.
Proof.
  destruct (join_head sep x l) as [tail ->].
  rewrite <- append_assoc. apply startsWith_app.
Qed.

(** *** Absolute paths *)

Lemma normalize_absolute s :
  startsWith "/" s = true → startsWith "/" (Path.normalize s) = true.
Proof.
  destruct s as [|a t]; [done|]. simpl. destruct (decide _) as [<-|]; [|done].
  intros _. rewrite bool_decide_eq_true_2 by done.
  destruct (is_empty _); [done|].
  by rewrite append_cons.
Qed.

Lemma join_absolute a l :
  startsWith "/" a = true → startsWith "/" (Path.join (a :: l)) = true.
Proof.
  intros Ha. unfold Path.join.
  destruct a as [|x a']; [done|].
  rewrite filter_cons_True by done.
  apply normalize_absolute.
  destruct (filter _ l); [done|].
  change (startsWith "/" (String x a' ++ "/" ++ join "/" (s :: l0)) = true).
  simpl in *. by destruct (decide _).
Qed.

Lemma header_path_absolute IOS_DIR podName :
  startsWith "/" IOS_DIR = true →
  ∃ p, header_path IOS_DIR podName = quote ++ p ++ quote ∧
       startsWith "/" p = true.
Proof.
  intros HIOS. eexists. split; [done|].
  apply join_absolute. unfold PODS_PUBLIC_HEADERS_DIR.
  apply join_absolute. unfold PODS_DIR. by apply join_absolute.
Qed.

Lemma header_path_last IOS_DIR podName :
  last_char (header_path IOS_DIR podName) = Some "034"%char.
Proof.
  unfold header_path. rewrite last_char_app.
  - by rewrite last_char_app.
  - eapply last_char_nonempty. by rewrite last_char_app.
Qed.

(** The trimming changes nothing: the string starts with the token and
    ends with a quote. *)
Lemma constructHeaderSearchPaths_eq IOS_DIR deps :
  constructHeaderSearchPaths IOS_DIR deps
  = "$(inherited) " ++
    join " " (map (header_path IOS_DIR) (podsToSearchForHeaders deps)).
Proof.
  unfold constructHeaderSearchPaths, podsToSearchForHeaders.
  destruct (set_of_head EmptyString (deps ++ FIXED_PODS)) as [more Hm].
  change ([EmptyString] ++ deps ++ FIXED_PODS)%list
    with (EmptyString :: deps ++ FIXED_PODS)%list.
  rewrite Hm. rewrite map_cons.
  apply (trim_token _ "034"%char); [|done].
  apply last_char_join. intros y Hy.
  change (y ∈ map (header_path IOS_DIR) (EmptyString :: more)) in Hy.
  apply list_elem_of_fmap in Hy as (n & -> & _).
  apply header_path_last.
Qed.

End SearchPaths.

(** ** The tasks *)

Module TaskFacts.
Import IO Tasks.

Section WithPreBuilder.

Context {Package Parcel : Type}.
Variable pkg : Parcel → Package.
Variable packageName : Package → string.
Variable canPrebuildPackage : Package → bool.
Variable green : string → string.
Variable rejects : list (Effect Package) → Effect Package → bool.

(** The log line for a package and the awaited build. *)
Lemma announce_and_build package trace :
  (await emit Package
           (logger_info Package "👷‍♀️ Prebuilding %s"
              [green (packageName package)]) ;;
   prebuildPackageAsync Package rejects package true) trace
  = if rejects
         (trace ++ [logger_info Package "👷‍♀️ Prebuilding %s"
                      [green (packageName package)]])%list
         (prebuildPackage Package package true)
    then Thrown (trace ++ announced Package packageName green package)%list
    else Returned tt (trace ++ announced Package packageName green package)%list.
Proof.
  unfold bind, emit, modify, prebuildPackageAsync, awaited, announced.
  destruct (rejects _ _); by rewrite <- app_assoc.
Qed.

(** The loop when no build rejects. *)
Lemma prebuild_loop parcels : ∀ trace,
  (∀ before package after,
     filter (λ p, canPrebuildPackage p = true) (map pkg parcels)
     = (before ++ package :: after)%list →
     rejects
       (trace ++ flat_map (announced Package packageName green) before ++
        [logger_info Package "👷‍♀️ Prebuilding %s"
           [green (packageName package)]])%list
       (prebuildPackage Package package true) = false) →
  for_of parcels
    (λ parcel,
       if negb (canPrebuildPackage (pkg parcel)) then ret tt
       else
         await emit Package
                 (logger_info Package "👷‍♀️ Prebuilding %s"
                    [green (packageName (pkg parcel))]) ;;
         prebuildPackageAsync Package rejects (pkg parcel) true) trace
  = Returned tt
      (trace ++
       flat_map (announced Package packageName green)
         (filter (λ p, canPrebuildPackage p = true) (map pkg parcels)))%list.
Proof.
  induction parcels as [|parcel parcels IH]; intros trace Hall; simpl.
  - unfold ret. by rewrite app_nil_r.
  - unfold bind at 1. destruct (canPrebuildPackage (pkg parcel)) eqn:Hcan.
    + change (negb true) with false. cbv iota. simpl map in Hall.
      rewrite filter_cons_True in Hall by done.
      rewrite filter_cons_True by done.
      rewrite announce_and_build.
      pose proof (Hall [] (pkg parcel) _ eq_refl) as Hfirst.
      simpl in Hfirst. rewrite Hfirst.
      rewrite IH.
      * simpl flat_map. by rewrite <- !app_assoc.
      * intros before package after Hsplit.
        rewrite <- app_assoc.
        apply (Hall (pkg parcel :: before) package after).
        by rewrite Hsplit.
    + change (negb false) with true. cbv iota. simpl map in Hall.
      rewrite filter_cons_False in Hall by (rewrite Hcan; done).
      rewrite filter_cons_False by (rewrite Hcan; done).
      unfold ret at 1. by apply IH.
Qed.

(** The loop when a build rejects: the packages after it are not built. *)
Lemma prebuild_loop_rejected parcels : ∀ trace before package after,
  filter (λ p, canPrebuildPackage p = true) (map pkg parcels)
  = (before ++ package :: after)%list →
  (∀ built earlier later,
     before = (built ++ earlier :: later)%list →
     rejects
       (trace ++ flat_map (announced Package packageName green) built ++
        [logger_info Package "👷‍♀️ Prebuilding %s"
           [green (packageName earlier)]])%list
       (prebuildPackage Package earlier true) = false) →
  rejects
    (trace ++ flat_map (announced Package packageName green) before ++
     [logger_info Package "👷‍♀️ Prebuilding %s"
        [green (packageName package)]])%list
    (prebuildPackage Package package true) = true →
  for_of parcels
    (λ parcel,
       if negb (canPrebuildPackage (pkg parcel)) then ret tt
       else
         await emit Package
                 (logger_info Package "👷‍♀️ Prebuilding %s"
                    [green (packageName (pkg parcel))]) ;;
         prebuildPackageAsync Package rejects (pkg parcel) true) trace
  = Thrown
      (trace ++
       flat_map (announced Package packageName green)
         (before ++ [package]))%list.
Proof.
  induction parcels as [|parcel parcels IH];
    intros trace before package after Hsplit Hearlier Hrejects; simpl.
  - simpl in Hsplit. by destruct before.
  - unfold bind at 1. simpl map in Hsplit.
    destruct (canPrebuildPackage (pkg parcel)) eqn:Hcan.
    + change (negb true) with false. cbv iota.
      rewrite filter_cons_True in Hsplit by done.
      rewrite announce_and_build.
      destruct before as [|first before].
      * simpl in Hsplit. injection Hsplit as -> _.
        simpl in Hrejects. rewrite Hrejects. simpl. done.
      * simpl in Hsplit. injection Hsplit as -> Hsplit.
        pose proof (Hearlier [] first before eq_refl) as Hfirst.
        simpl in Hfirst. rewrite Hfirst.
        rewrite (IH _ before package after Hsplit).
        -- simpl flat_map. by rewrite <- !app_assoc.
        -- intros built earlier later ->. rewrite <- app_assoc.
           by apply (Hearlier (first :: built) earlier later).
        -- rewrite <- app_assoc. exact Hrejects.
    + change (negb false) with true. cbv iota.
      rewrite filter_cons_False in Hsplit by (rewrite Hcan; done).
      unfold ret at 1. by apply (IH _ before package after).
Qed.

(** The two tasks, from the blank line on. *)
Lemma prebuildPackages_returns parcels trace :
  (∀ before package after,
     filter (λ p, canPrebuildPackage p = true) (map pkg parcels)
     = (before ++ package :: after)%list →
     build_rejects Package packageName green rejects trace before package
     = false) →
  prebuildPackages Package Parcel pkg packageName canPrebuildPackage green
    rejects parcels trace
  = Returned tt
      (trace ++
       logger_log Package ::
       flat_map (announced Package packageName green)
         (filter (λ p, canPrebuildPackage p = true) (map pkg parcels)))%list.
Proof.
  intros Hall. unfold prebuildPackages.
  unfold bind at 1. unfold emit at 1. unfold modify.
  rewrite prebuild_loop; [by rewrite <- app_assoc|].
  intros before package after Hsplit. rewrite <- app_assoc.
  by apply (Hall before package after).
Qed.

Lemma prebuildPackages_throws parcels trace before package after :
  filter (λ p, canPrebuildPackage p = true) (map pkg parcels)
  = (before ++ package :: after)%list →
  (∀ built earlier later,
     before = (built ++ earlier :: later)%list →
     build_rejects Package packageName green rejects trace built earlier
     = false) →
  build_rejects Package packageName green rejects trace before package
  = true →
  prebuildPackages Package Parcel pkg packageName canPrebuildPackage green
    rejects parcels trace
  = Thrown
      (trace ++
       logger_log Package ::
       flat_map (announced Package packageName green)
         (before ++ [package]))%list.
Proof.
  intros Hsplit Hearlier Hrejects. unfold prebuildPackages.
  unfold bind at 1. unfold emit at 1. unfold modify.
  rewrite (prebuild_loop_rejected parcels _ before package after Hsplit).
  - by rewrite <- app_assoc.
  - intros built earlier later Hb. rewrite <- app_assoc.
    by apply (Hearlier built earlier later).
  - rewrite <- app_assoc. exact Hrejects.
Qed.

Lemma cleanPrebuilds_trace parcels trace :
  cleanPrebuilds Package Parcel pkg canPrebuildPackage rejects parcels trace
  = match filter (λ p, canPrebuildPackage p = true) (map pkg parcels) with
    | [] => Returned tt (trace ++ [logger_log Package])%list
    | packages =>
        (if clean_rejects Package rejects trace packages
         then Thrown else Returned tt)
          (trace ++
           [ logger_log Package;
             logger_info Package "🧹 Cleaning prebuilt resources %s" [];
             cleanFrameworks Package packages ])%list
    end.
Proof.
  unfold cleanPrebuilds.
  unfold bind at 1. unfold emit at 1. unfold modify.
  destruct (filter _ (map pkg parcels)) as [|p packages]; simpl; [done|].
  unfold bind, cleanFrameworksAsync, awaited, emit, modify, clean_rejects.
  rewrite <- !app_assoc. simpl.
  by destruct (rejects _ _).
Qed.

End WithPreBuilder.

End TaskFacts.

(** ** Paths *)

Module PathFacts.
Import Js SearchPaths.

Lemma last_char_in s c : last_char s = Some c → c ∈ chars s.
Proof.
  induction s as [|a t IH]; [done|]. destruct t as [|b t'].
  - intros [= ->]. by left.
  - intros H. right. by apply IH.
Qed.

Lemma last_char_some s : is_empty s = false → ∃ c, last_char s = Some c.
Proof.
  induction s as [|a t IH]; [done|]. intros _.
  destruct t as [|b t']; [by exists a|]. by apply IH.
Qed.

Lemma split_on_plain c x :
  c ∉ chars x → split_on c x = [x].
Proof.
  induction x as [|a t IH]; intros Hc; simpl; [done|].
  simpl in Hc. apply not_elem_of_cons in Hc as [Hne Hc].
  rewrite decide_False by congruence. by rewrite IH.
Qed.

Lemma split_on_app c x r :
  c ∉ chars x → split_on c (x ++ String c r) = x :: split_on c r.
Proof.
  induction x as [|a t IH]; intros Hc.
  - change (EmptyString ++ String c r) with (String c r). simpl.
    by rewrite decide_True.
  - simpl in Hc. apply not_elem_of_cons in Hc as [Hne Hc].
    rewrite append_cons. simpl. rewrite decide_False by congruence.
    by rewrite IH.
Qed.

Lemma split_on_sep c r :
  split_on c (String c r) = EmptyString :: split_on c r.
Proof. simpl. by rewrite decide_True. Qed.

Lemma fold_skip_empty l res :
  fold_left (Path.segment false) (EmptyString :: l) res
  = fold_left (Path.segment false) l res.
Proof. done. Qed.

Lemma split_on_no_sep c s : Forall (λ x, c ∉ chars x) (split_on c s).
Proof.
  induction s as [|a t IH]; simpl.
  - repeat constructor. apply not_elem_of_nil.
  - destruct (decide (a = c)) as [->|Hne].
    + constructor; [apply not_elem_of_nil | done].
    + destruct (split_on c t) as [|x l]; simpl.
      * repeat constructor. intros [?|H]%elem_of_cons; [congruence|].
        by apply not_elem_of_nil in H.
      * apply Forall_cons in IH as [Hx Hl]. constructor; [|done].
        simpl. intros [?|H]%elem_of_cons; [congruence | done].
Qed.

Lemma split_on_join c l x :
  Forall (λ x, c ∉ chars x) (x :: l) →
  split_on c (join (String c EmptyString) (x :: l)) = x :: l.
Proof.
  revert x. induction l as [|y l IH]; intros x [Hx Hl]%Forall_cons.
  - simpl. by apply split_on_plain.
  - change (join (String c EmptyString) (x :: y :: l))
      with (x ++ String c (join (String c EmptyString) (y :: l))).
    rewrite split_on_app by done. by rewrite IH.
Qed.

Lemma split_on_join' c l :
  l ≠ [] → Forall (λ x, c ∉ chars x) l →
  split_on c (join (String c EmptyString) l) = l.
Proof. destruct l; [done|]. intros _. apply split_on_join. Qed.

Lemma join_snoc sep l x y :
  join sep ((x :: l) ++ [y]) = join sep (x :: l) ++ sep ++ y.
Proof.
  revert x. induction l as [|z l IH]; intros x; [done|].
  change (join sep ((x :: z :: l) ++ [y]))
    with (x ++ sep ++ join sep ((z :: l) ++ [y])).
  rewrite IH.
  change (join sep (x :: z :: l)) with (x ++ sep ++ join sep (z :: l)).
  by rewrite !append_assoc.
Qed.

Lemma join_nonempty sep x l :
  is_empty x = false → is_empty (join sep (x :: l)) = false.
Proof. destruct x; [done|]. by destruct l. Qed.

Lemma last_char_join_snoc sep l z :
  is_empty z = false → last_char (join sep (l ++ [z])) = last_char z.
Proof.
  intros Hz. induction l as [|a l IH]; [done|].
  destruct l as [|b l].
  - change (last_char (a ++ sep ++ z) = last_char z).
    rewrite last_char_app; [by rewrite last_char_app|].
    destruct sep; [done | done].
  - change (join sep ((a :: b :: l) ++ [z]))
      with (a ++ sep ++ join sep ((b :: l) ++ [z])).
    assert (is_empty (join sep ((b :: l) ++ [z])) = false) as Hne.
    { destruct (last_char_some z Hz) as [c Hc].
      eapply last_char_nonempty. rewrite IH. exact Hc. }
    rewrite last_char_app.
    + by rewrite last_char_app.
    + destruct sep; [done | done].
Qed.

Lemma segment_plain seg res :
  Path.plain seg → Path.segment false res seg = seg :: res.
Proof.
  intros (H1 & H2 & H3 & _). unfold Path.segment.
  by rewrite !decide_False.
Qed.

Lemma segment_keeps_plain res seg :
  Forall Path.plain res → "/"%char ∉ chars seg →
  Forall Path.plain (Path.segment false res seg).
Proof.
  intros Hres Hseg. unfold Path.segment.
  destruct (decide (seg = EmptyString)); [done|].
  destruct (decide (seg = ".")); [done|].
  destruct (decide (seg = "..")).
  - destruct res as [|last res']; [done|].
    apply Forall_cons in Hres as [Hlast Hres'].
    destruct (decide (last = "..")); [by constructor | done].
  - by constructor.
Qed.

Lemma fold_keeps_plain l : ∀ res,
  Forall Path.plain res → Forall (λ x, "/"%char ∉ chars x) l →
  Forall Path.plain (fold_left (Path.segment false) l res).
Proof.
  induction l as [|x l IH]; intros res Hres Hl; simpl; [done|].
  apply Forall_cons in Hl as [Hx Hl].
  apply IH; [by apply segment_keeps_plain | done].
Qed.

Lemma fold_plain l : ∀ res,
  Forall Path.plain l →
  fold_left (Path.segment false) l res = (rev l ++ res)%list.
Proof.
  induction l as [|x l IH]; intros res Hl; simpl; [done|].
  apply Forall_cons in Hl as [Hx Hl].
  rewrite segment_plain by done. rewrite IH by done.
  by rewrite <- app_assoc.
Qed.

(** The segments that an absolute path normalizes to. *)
Lemma normalize_segments t :
  ∃ kept,
    Forall Path.plain kept ∧
    Path.normalize (String "/" t)
    = match kept with
      | [] => "/"
      | _ =>
          "/" ++ join "/" kept ++
          (if bool_decide (last_char (String "/" t) = Some "/"%char)
           then "/" else EmptyString)
      end.
Proof.
  exists (rev (fold_left (Path.segment false)
                 (split_on "/" (String "/" t)) [])).
  assert (Forall Path.plain (fold_left (Path.segment false)
                          (split_on "/" (String "/" t)) [])) as Hplain
    by (apply fold_keeps_plain; [done | apply split_on_no_sep]).
  split; [by apply Forall_rev|].
  unfold Path.normalize, Path.normalizeString.
  rewrite bool_decide_eq_true_2 by done. simpl negb.
  destruct (rev _) as [|x kept] eqn:Hk; [done|].
  assert (Path.plain x) as Hx.
  { assert (Forall Path.plain (x :: kept)) as H
      by (rewrite <- Hk; by apply Forall_rev).
    by apply Forall_cons in H as [? _]. }
  rewrite join_nonempty by (destruct Hx as [Hx _]; by destruct x).
  destruct (bool_decide _); [done|]. by rewrite append_empty.
Qed.

Lemma normalize_kept kept trailing :
  Forall Path.plain kept → kept ≠ [] →
  Path.normalize
    ("/" ++ join "/" kept ++ (if trailing : bool then "/" else EmptyString))
  = "/" ++ join "/" kept ++ (if trailing then "/" else EmptyString).
Proof.
  intros Hkept Hne.
  destruct (exists_last Hne) as (front & z & ->).
  assert (Path.plain z) as Hz
    by (apply Forall_app in Hkept as [_ [? _]%Forall_cons]; done).
  assert (is_empty z = false) as Hzne
    by (destruct Hz as [? _]; by destruct z).
  assert (Forall (λ x, "/"%char ∉ chars x) (front ++ [z])) as Hsep
    by (eapply Forall_impl; [exact Hkept | by intros ? (_ & _ & _ & ?)]).
  set (p := join "/" (front ++ [z])).
  assert (is_empty p = false) as Hp.
  { destruct (last_char_some z Hzne) as [c Hc].
    eapply last_char_nonempty. unfold p.
    rewrite last_char_join_snoc by done. exact Hc. }
  assert (bool_decide
            (last_char ("/" ++ p ++ (if trailing then "/" else EmptyString))
             = Some "/"%char) = trailing) as Htr.
  { destruct trailing.
    - apply bool_decide_eq_true_2.
      rewrite last_char_app; [by rewrite last_char_app|].
      eapply last_char_nonempty. by rewrite last_char_app.
    - apply bool_decide_eq_false_2. rewrite append_empty.
      rewrite last_char_app by done. unfold p.
      rewrite last_char_join_snoc by done.
      intros Hc%last_char_in. by destruct Hz as (_ & _ & _ & ?). }
  assert (rev (fold_left (Path.segment false)
                 (split_on "/"
                    ("/" ++ p ++ (if trailing then "/" else EmptyString)))
                 []) = (front ++ [z])%list) as Hfold.
  { change ("/" ++ ?x) with (String "/" x).
    rewrite split_on_sep, fold_skip_empty.
    destruct trailing.
    - assert (p ++ "/" = join "/" ((front ++ [z]) ++ [EmptyString])) as ->.
      { unfold p. destruct front as [|x front]; [done|].
        change (((x :: front) ++ [z]) ++ [EmptyString])%list
          with ((x :: (front ++ [z])) ++ [EmptyString])%list.
        rewrite (join_snoc "/" (front ++ [z]) x EmptyString).
        by rewrite append_empty. }
      rewrite split_on_join';
        [| by destruct front
         | apply Forall_app; split; [done|];
           repeat constructor; apply not_elem_of_nil].
      rewrite fold_left_app. rewrite (fold_plain (front ++ [z])) by done.
      simpl fold_left. unfold Path.segment. rewrite decide_True by done.
      rewrite app_nil_r. apply rev_involutive.
    - rewrite append_empty. unfold p.
      rewrite split_on_join' by done.
      rewrite fold_plain by done.
      rewrite app_nil_r. apply rev_involutive. }
  unfold Path.normalize.
  change ("/" ++ p ++ (if trailing then "/" else EmptyString))
    with (String "/" (p ++ (if trailing then "/" else EmptyString))) at 1.
  cbv beta iota zeta.
  change (String "/" (p ++ (if trailing then "/" else EmptyString)))
    with ("/" ++ p ++ (if trailing then "/" else EmptyString)).
  rewrite Htr. rewrite bool_decide_eq_true_2 by done. simpl negb.
  unfold Path.normalizeString. rewrite Hfold. fold p. rewrite Hp.
  destruct trailing; [done|]. by rewrite append_empty.
Qed.

(** Normalizing an absolute path twice is normalizing it once. *)
Lemma normalize_idempotent s :
  startsWith "/" s = true →
  Path.normalize (Path.normalize s) = Path.normalize s.
Proof.
  destruct s as [|a t]; [done|]. intros H.
  assert (a = "/"%char) as ->
    by (simpl in H; by destruct (decide ("/"%char = a))).
  destruct (normalize_segments t) as (kept & Hkept & ->).
  destruct kept as [|x kept]; [done|].
  by apply normalize_kept.
Qed.

End PathFacts.

(** ** The header search paths *)

Module Headers.
Import Js XcodeGen SearchPaths PathFacts.

Lemma absolute_nonempty s : startsWith "/" s = true → is_empty s = false.
Proof. by destruct s. Qed.

Lemma public_headers_absolute IOS_DIR :
  startsWith "/" IOS_DIR = true →
  startsWith "/" (PODS_PUBLIC_HEADERS_DIR IOS_DIR) = true.
Proof.
  intros H. unfold PODS_PUBLIC_HEADERS_DIR, PODS_DIR.
  by apply join_absolute, join_absolute.
Qed.

(** The path for the empty pod name is the public headers directory
    itself. *)
Lemma join_root IOS_DIR :
  startsWith "/" IOS_DIR = true →
  Path.join [PODS_PUBLIC_HEADERS_DIR IOS_DIR; EmptyString]
  = PODS_PUBLIC_HEADERS_DIR IOS_DIR.
Proof.
  intros H.
  pose proof (absolute_nonempty _ (public_headers_absolute IOS_DIR H)) as Hne.
  unfold Path.join at 1.
  rewrite filter_cons_True by (by rewrite Hne).
  rewrite filter_cons_False by (simpl; congruence).
  rewrite filter_nil. simpl Js.join.
  unfold PODS_PUBLIC_HEADERS_DIR at 1 2.
  assert (startsWith "/" (PODS_DIR IOS_DIR) = true) as Hp
    by (by apply join_absolute).
  unfold Path.join.
  rewrite filter_cons_True by (by rewrite (absolute_nonempty _ Hp)).
  rewrite !filter_cons_True by done. rewrite filter_nil.
  apply normalize_idempotent.
  destruct (PODS_DIR IOS_DIR) as [|a t]; [done|].
  change (join "/" [String a t; "Headers"; "Public"])
    with (String a (t ++ "/" ++ join "/" ["Headers"; "Public"])).
  simpl in *. by destruct (decide ("/"%char = a)).
Qed.

Lemma fixed_pods_length : length FIXED_PODS = 9%nat.
Proof. done. Qed.

End Headers.

(** ** The generator *)

Module Generator.
Import Js IO XcodeGen.

Lemma bind_Returned {W A B} (c : io W A) (k : A → io W B) w a w' :
  c w = Returned a w' → bind c k w = k a w'.
Proof. unfold bind. by intros ->. Qed.

Lemma bind_Thrown {W A B} (c : io W A) (k : A → io W B) w w' :
  c w = Thrown w' → bind c k w = Thrown w'.
Proof. unfold bind. by intros ->. Qed.

End Generator.

(** * The claims *)

Import Js IO XcodeGen.

(** C1.  Merging [{A: "$(inherited) x"}] and then [{A: "y"}]: the existing
    value holds the token, so the merged value is the token, a space, and
    the existing value, a space and the new value with the regular
    expression of [mergeXcodeConfigValue] applied.  That expression matches
    nowhere ([Merge.exec_inherited]), the token inside the existing value
    stays, and the result holds the token twice: it is not
    [{A: "$(inherited) x y"}].  The translation of a manifest reaches this
    through [pod_target_xcconfig]. *)
Theorem C1_inherited_token_is_not_collapsed :
  mergeXcodeConfigs
    [ {[ "A" := VStr "$(inherited) x" ]}; {[ "A" := VStr "y" ]} ]
  = {[ "A" := VStr "$(inherited) $(inherited) x y" ]} ∧
  mergeXcodeConfigs
    [ {[ "A" := VStr "$(inherited) x" ]}; {[ "A" := VStr "y" ]} ]
  ≠ {[ "A" := VStr "$(inherited) x y" ]} ∧
  ∃ spec,
    createSpecFromPodspecAsync Samples.root Samples.inheriting Samples.only_Y
    = Some spec ∧
    target_settings_of spec
    = Some {[ "MACH_O_TYPE" := VStr "$(inherited) $(inherited) x staticlib" ]}.
Proof.
  assert (mergeXcodeConfigs
            [ {[ "A" := VStr "$(inherited) x" ]}; {[ "A" := VStr "y" ]} ]
          = {[ "A" := VStr "$(inherited) $(inherited) x y" ]}) as E
    by (vm_compute; reflexivity).
  split; [exact E|]. split.
  - rewrite E. intros H.
    apply (f_equal (λ m : gmap string JsVal, m !! "A")) in H.
    rewrite !lookup_singleton_eq in H. discriminate H.
  - eexists. split; vm_compute; reflexivity.
Qed.

(** C2, against the claim as it is worded.  The manifest [Samples.desktop]
    declares [osx] with 10.10 and then [macos] with 10.15; both keys
    translate to [macOS], and the deployment targets pair that name with
    10.15 alone: the version of [osx] is not there. *)
Lemma C2_counterexample :
  ∃ spec dt,
    createSpecFromPodspecAsync Samples.root Samples.desktop Samples.only_Y
    = Some spec ∧
    deploymentTarget_of spec = Some dt ∧
    ("osx", "10.10") ∈ platforms Samples.desktop ∧
    translated "osx" = "macOS" ∧
    dt = {[ "macOS" := VStr "10.15" ]} ∧
    dt !! translated "osx" ≠ Some (VStr "10.10").
Proof.
  destruct (Translator.createSpec_parts Samples.root Samples.desktop
              Samples.only_Y 1%N) as (spec & Hs & _ & _ & Hdt);
    [vm_compute; reflexivity|].
  exists spec, {[ "macOS" := VStr "10.15" ]}.
  split; [exact Hs|]. split; [rewrite Hdt; vm_compute; reflexivity|].
  split; [by left|]. split; [vm_compute; reflexivity|]. split; [done|].
  change (translated "osx") with "macOS".
  rewrite lookup_singleton_eq. discriminate.
Qed.

(** C2, amended.  For a manifest whose platform map is [{ios: "12.0"}] the
    deployment targets are [{iOS: "12.0"}].  In general, for a platform map
    (an object: its keys are distinct), the deployment targets pair the
    translated name of a platform key with the minimum version of that key,
    unless a later key of the map translates to the same name: then the
    version of the later key is the one kept. *)
Theorem C2_deployment_targets IOS_DIR podspec resolver n :
  Semver.major (version podspec) = Some n →
  ∃ spec dt,
    createSpecFromPodspecAsync IOS_DIR podspec resolver = Some spec ∧
    deploymentTarget_of spec = Some dt ∧
    (platforms podspec = [("ios", "12.0")] → dt = {[ "iOS" := VStr "12.0" ]}) ∧
    (∀ before key minimum after,
       platforms podspec = (before ++ (key, minimum) :: after)%list →
       NoDup (Object_keys (platforms podspec)) →
       (∀ later, later ∈ Object_keys after →
                 translated later ≠ translated key) →
       dt !! translated key = Some (VStr minimum)).
Proof.
  intros Hn.
  destruct (Translator.createSpec_parts IOS_DIR podspec resolver n Hn)
    as (spec & Hs & _ & _ & Hdt).
  eexists spec, _. split; [exact Hs|]. split; [exact Hdt|]. split.
  - intros ->. simpl. by rewrite insert_empty.
  - intros before key minimum after Hp Hnd Hlater.
    assert (prop (platforms podspec) key = Some minimum) as Hprop.
    { rewrite Hp. apply Translator.prop_middle.
      rewrite Hp in Hnd. unfold Object_keys in Hnd.
      rewrite map_app in Hnd. apply NoDup_app in Hnd as (_ & Hnd & _).
      intros Hin. apply (Hnd key Hin). by left. }
    assert (Object_keys (platforms podspec)
            = (Object_keys before ++ key :: Object_keys after)%list) as ->
      by (rewrite Hp; unfold Object_keys; by rewrite map_app).
    rewrite (Translator.fold_insert_last translated
               (λ platform, str_or_undef (prop (platforms podspec) platform))).
    + by rewrite Hprop.
    + exact Hlater.
Qed.

(** C2 at a manifest for [ios] and [osx], for the key [ios]. *)
Lemma C2_witness :
  ∃ spec dt,
    createSpecFromPodspecAsync Samples.root Samples.phone_and_desktop
      Samples.only_Y = Some spec ∧
    deploymentTarget_of spec = Some dt ∧
    dt !! "iOS" = Some (VStr "12.0").
Proof.
  destruct (C2_deployment_targets Samples.root Samples.phone_and_desktop
              Samples.only_Y 1%N) as (spec & dt & Hs & Hdt & _ & Hkey).
  - vm_compute. reflexivity.
  - exists spec, dt. split; [exact Hs|]. split; [exact Hdt|].
    apply (Hkey [] "ios" "12.0" [("osx", "10.15")]).
    + reflexivity.
    + apply (bool_decide_unpack _). vm_compute. exact I.
    + intros later Hin. apply list_elem_of_singleton in Hin.
      rewrite Hin. vm_compute. discriminate.
Defined.

(** C3, against the claim as it is worded.  On the name [a..b] the program
    keeps both dots; collapsing the runs of underscores and non-alphanumeric
    characters, as the claim words it, leaves one. *)
Lemma C3_counterexample :
  podNameToBundleId "a..b" = "a..b" ∧
  Words.bundleId Words.underscore_or_non_alphanumeric "a..b" = "a.b" ∧
  podNameToBundleId "a..b"
  ≠ Words.bundleId Words.underscore_or_non_alphanumeric "a..b".
Proof.
  assert (podNameToBundleId "a..b" = "a..b") as E1 by (vm_compute; reflexivity).
  assert (Words.bundleId Words.underscore_or_non_alphanumeric "a..b" = "a.b")
    as E2 by (vm_compute; reflexivity).
  split; [exact E1|]. split; [exact E2|]. rewrite E1, E2. discriminate.
Qed.

(** C3, amended.  [podNameToBundleId] maps [EXFoo] to [expo.foo] and
    [UMBar_Baz] to [unimodules.bar.baz]; on every name it replaces the
    prefixes [UM] and [EX] by [unimodules] and [expo], collapses every run
    of underscores and of characters that are neither letters, digits nor
    dots into one dot (the dots of the name stay), and puts a dot before
    every run of capitals, in place of the dots directly before it, with the
    run in lower case. *)
Theorem C3_bundle_identifier :
  podNameToBundleId "EXFoo" = "expo.foo" ∧
  podNameToBundleId "UMBar_Baz" = "unimodules.bar.baz" ∧
  ∀ podName,
    podNameToBundleId podName
    = Words.dotCapitals false
        (Words.collapseRuns Words.separator false
           (Words.replacePrefix "EX" "expo"
              (Words.replacePrefix "UM" "unimodules" podName))).
Proof.
  split; [vm_compute; reflexivity|]. split; [vm_compute; reflexivity|].
  apply BundleId.podNameToBundleId_words.
Qed.

(** C4.  The dependencies of the target are the SDK entries followed by the
    resolved ones; the resolved ones are the descriptors that the resolver
    returned for the declared names, in declaration order, and a name for
    which it returned nothing leaves no entry.  With [Z] and [Y] declared,
    nothing returned for [Z] and a descriptor for [Y], the resolved part is
    that one descriptor. *)
Theorem C4_resolved_dependencies IOS_DIR podspec resolver n :
  Semver.major (version podspec) = Some n →
  ∃ spec resolved,
    createSpecFromPodspecAsync IOS_DIR podspec resolver = Some spec ∧
    dependencies_of spec = Some (sdkDependencies podspec ++ resolved)%list ∧
    resolved = omap resolver (declaredNames podspec) ∧
    (∀ d, d ∈ resolved ↔
          ∃ name, name ∈ declaredNames podspec ∧ resolver name = Some d) ∧
    (Some <$> resolved) `sublist_of` (resolver <$> declaredNames podspec) ∧
    (∀ forZ forY descriptor,
       podspec_dependencies podspec = Some [("Z", forZ); ("Y", forY)] →
       resolver "Z" = None → resolver "Y" = Some descriptor →
       resolved = [descriptor]).
Proof.
  intros Hn.
  destruct (Translator.createSpec_parts IOS_DIR podspec resolver n Hn)
    as (spec & Hs & Hd & _ & _).
  exists spec, (omap resolver (declaredNames podspec)).
  split; [exact Hs|]. split; [exact Hd|]. split; [done|]. split.
  - intros d. apply list_elem_of_omap.
  - split; [apply Translator.omap_sublist|].
    intros forZ forY descriptor Hdeps HZ HY.
    unfold declaredNames. rewrite Hdeps. simpl. by rewrite HZ, HY.
Qed.

(** C4 at a manifest that declares [Z] and [Y], with a resolver that knows
    [Y] alone. *)
Lemma C4_witness :
  ∃ spec,
    createSpecFromPodspecAsync Samples.root Samples.location Samples.only_Y
    = Some spec ∧
    dependencies_of spec
    = Some [ sdk_dependency "CoreLocation.framework";
             Samples.target_dependency "Y" ].
Proof.
  destruct (C4_resolved_dependencies Samples.root Samples.location
              Samples.only_Y 1%N) as (spec & resolved & Hs & Hd & _ & _ & _ & HZY).
  - vm_compute. reflexivity.
  - exists spec. split; [exact Hs|]. rewrite Hd.
    rewrite (HZY [] [] (Samples.target_dependency "Y"));
      [reflexivity | reflexivity | vm_compute; reflexivity
      | vm_compute; reflexivity].
Defined.

(** C5, against the claim as it is worded.  The manifest
    [Samples.versioned] has the three fields of the claim, and an
    [info_plist] with a [CFBundleVersion] of its own: the info block holds
    that one, the string 9, and not the number 1. *)
Lemma C5_counterexample :
  source_files Samples.versioned = One "Sources/**/*.m" ∧
  frameworks Samples.versioned = Many ["CoreLocation"] ∧
  version Samples.versioned = "1.2.3" ∧
  ∃ spec props,
    createSpecFromPodspecAsync Samples.root Samples.versioned Samples.only_Y
    = Some spec ∧
    properties_of spec = Some props ∧
    props !! "CFBundleVersion" = Some (VStr "9") ∧
    props !! "CFBundleVersion" ≠ Some (VNum 1).
Proof.
  split; [reflexivity|]. split; [reflexivity|]. split; [reflexivity|].
  destruct (Translator.createSpec_parts Samples.root Samples.versioned
              Samples.only_Y 1%N) as (spec & Hs & _ & Hp & _);
    [vm_compute; reflexivity|].
  eexists spec, _. split; [exact Hs|]. split; [exact Hp|].
  assert (∀ computed : gmap string JsVal,
            computed !! "CFBundleVersion" = Some (VNum 1) →
            mergeXcodeConfigs
              [computed; or_empty (info_plist Samples.versioned)]
              !! "CFBundleVersion" = Some (VStr "9")) as E.
  { intros computed Hc. by rewrite (Merge.merge_over_number _ _ _ 1%N). }
  rewrite E by apply lookup_insert_eq. split; [done | discriminate].
Qed.

(** C5, amended.  The SDK entries, one per declared framework with
    [.framework] after its name, come before the resolved dependencies.
    The [CFBundleVersion] of the info block is the number that
    [semver.major] gives for the version, unless the [info_plist] of the
    manifest has a [CFBundleVersion]: then it is that one.  For a manifest
    with [source_files] [Sources/**/*.m], [frameworks] [CoreLocation] and
    [version] [1.2.3] the dependencies hold
    [{sdk: "CoreLocation.framework"}], and [CFBundleVersion] is the number
    1 unless the manifest gives its own. *)
Theorem C5_end_to_end :
  (∀ IOS_DIR podspec resolver n,
     Semver.major (version podspec) = Some n →
     ∃ spec props,
       createSpecFromPodspecAsync IOS_DIR podspec resolver = Some spec ∧
       dependencies_of spec
       = Some (map (λ name,
                      {| framework := None; implicit := None; target := None;
                         sdk := Some (name ++ ".framework")%string;
                         embed := None; link := None; codeSign := None;
                         removeHeaders := None; weak := None |})
                   match frameworks podspec with
                   | Many names => names
                   | One name => [name]
                   | Missing => []
                   end
               ++ omap resolver (declaredNames podspec))%list ∧
       properties_of spec = Some props ∧
       ((∀ info, info_plist podspec = Some info →
                 info !! "CFBundleVersion" = None) →
        props !! "CFBundleVersion" = Some (VNum n)) ∧
       (∀ info given,
          info_plist podspec = Some info →
          info !! "CFBundleVersion" = Some given →
          props !! "CFBundleVersion" = Some given)) ∧
  (∀ IOS_DIR podspec resolver,
     source_files podspec = One "Sources/**/*.m" →
     frameworks podspec = Many ["CoreLocation"] →
     version podspec = "1.2.3" →
     ∃ spec deps props,
       createSpecFromPodspecAsync IOS_DIR podspec resolver = Some spec ∧
       dependencies_of spec = Some deps ∧
       {| framework := None; implicit := None; target := None;
          sdk := Some "CoreLocation.framework";
          embed := None; link := None; codeSign := None;
          removeHeaders := None; weak := None |} ∈ deps ∧
       deps = ({| framework := None; implicit := None; target := None;
                  sdk := Some "CoreLocation.framework";
                  embed := None; link := None; codeSign := None;
                  removeHeaders := None; weak := None |}
               :: omap resolver (declaredNames podspec)) ∧
       properties_of spec = Some props ∧
       ((∀ info, info_plist podspec = Some info →
                 info !! "CFBundleVersion" = None) →
        props !! "CFBundleVersion" = Some (VNum 1)) ∧
       (∀ info given,
          info_plist podspec = Some info →
          info !! "CFBundleVersion" = Some given →
          props !! "CFBundleVersion" = Some given)).
Proof.
  assert (∀ IOS_DIR podspec resolver n,
     Semver.major (version podspec) = Some n →
     ∃ spec props,
       createSpecFromPodspecAsync IOS_DIR podspec resolver = Some spec ∧
       dependencies_of spec
       = Some (sdkDependencies podspec
               ++ omap resolver (declaredNames podspec))%list ∧
       properties_of spec = Some props ∧
       ((∀ info, info_plist podspec = Some info →
                 info !! "CFBundleVersion" = None) →
        props !! "CFBundleVersion" = Some (VNum n)) ∧
       (∀ info given,
          info_plist podspec = Some info →
          info !! "CFBundleVersion" = Some given →
          props !! "CFBundleVersion" = Some given)) as General.
  { intros IOS_DIR podspec resolver n Hn.
    destruct (Translator.createSpec_parts IOS_DIR podspec resolver n Hn)
      as (spec & Hs & Hd & Hp & _).
    eexists spec, _. split; [exact Hs|]. split; [exact Hd|].
    split; [exact Hp|].
    rewrite (Merge.merge_over_number _ _ _ n)
      by (done || apply lookup_insert_eq).
    split.
    - intros Hnone. destruct (info_plist podspec) as [info|]; simpl.
      + by rewrite (Hnone info eq_refl).
      + by rewrite lookup_empty.
    - intros info given -> Hgiven. simpl. by rewrite Hgiven. }
  split; [exact General|].
  intros IOS_DIR podspec resolver Hsrc Hfw Hv.
  destruct (General IOS_DIR podspec resolver 1%N)
    as (spec & props & Hs & Hd & Hp & Hb & Hg).
  { rewrite Hv. vm_compute. reflexivity. }
  unfold sdkDependencies in Hd. rewrite Hfw in Hd. simpl in Hd.
  eexists spec, _, props. split; [exact Hs|]. split; [exact Hd|].
  split; [by left|]. split; [done|]. split; [exact Hp|].
  split; [exact Hb | exact Hg].
Qed.

(** C5 at the manifest [Samples.location], which has no [info_plist]. *)
Lemma C5_witness :
  ∃ spec deps props,
    createSpecFromPodspecAsync Samples.root Samples.location Samples.only_Y
    = Some spec ∧
    dependencies_of spec = Some deps ∧
    sdk_dependency "CoreLocation.framework" ∈ deps ∧
    properties_of spec = Some props ∧
    props !! "CFBundleVersion" = Some (VNum 1).
Proof.
  destruct (proj2 C5_end_to_end Samples.root Samples.location Samples.only_Y)
    as (spec & deps & props & Hs & Hd & Hin & _ & Hp & Hv & _).
  - reflexivity.
  - reflexivity.
  - reflexivity.
  - exists spec, deps, props. split; [exact Hs|]. split; [exact Hd|].
    split; [exact Hin|]. split; [exact Hp|].
    apply Hv. intros info Hinfo. discriminate Hinfo.
Defined.

(** C6, against the claim as it is worded.  With no dependency the set
    holds ten names, the empty one and nine fixed ones: the fixed names are
    not eight. *)
Lemma C6_counterexample :
  length (podsToSearchForHeaders []) = 10%nat ∧
  length FIXED_PODS = 9%nat ∧
  ¬ (length (podsToSearchForHeaders []) ≤ 1 + 0 + 8)%nat.
Proof.
  split; [vm_compute; reflexivity|]. split; [reflexivity|].
  vm_compute. lia.
Qed.

(** C6, amended.  The header search paths are the token [$(inherited)]
    followed by the double-quoted paths, each the public headers directory
    joined with a name and absolute, of the names of a set: the empty name,
    the dependency names and nine fixed names, each once.  The empty name
    comes first and its path is the public headers directory itself. *)
Theorem C6_header_search_paths IOS_DIR deps :
  startsWith "/" IOS_DIR = true →
  let pods := podsToSearchForHeaders deps in
  constructHeaderSearchPaths IOS_DIR deps
  = "$(inherited) " ++ join " " (map (header_path IOS_DIR) pods) ∧
  (∀ podName, ∃ p,
     header_path IOS_DIR podName = quote ++ p ++ quote ∧
     p = Path.join [PODS_PUBLIC_HEADERS_DIR IOS_DIR; podName] ∧
     startsWith "/" p = true) ∧
  NoDup pods ∧
  (∀ podName, podName ∈ pods ↔
     podName = EmptyString ∨ podName ∈ deps ∨ podName ∈ FIXED_PODS) ∧
  length FIXED_PODS = 9%nat ∧
  (∃ more, pods = EmptyString :: more) ∧
  header_path IOS_DIR EmptyString
  = quote ++ PODS_PUBLIC_HEADERS_DIR IOS_DIR ++ quote ∧
  startsWith ("$(inherited) " ++ quote ++ PODS_PUBLIC_HEADERS_DIR IOS_DIR ++ quote)
    (constructHeaderSearchPaths IOS_DIR deps) = true.
Proof.
  intros Habs pods.
  assert (header_path IOS_DIR EmptyString
          = quote ++ PODS_PUBLIC_HEADERS_DIR IOS_DIR ++ quote) as Hroot
    by (unfold header_path; by rewrite Headers.join_root).
  destruct (SearchPaths.set_of_head EmptyString (deps ++ FIXED_PODS))
    as [more Hmore].
  split; [apply SearchPaths.constructHeaderSearchPaths_eq|].
  split.
  { intros podName. eexists. split; [reflexivity|]. split; [reflexivity|].
    apply SearchPaths.join_absolute.
    by apply Headers.public_headers_absolute. }
  split; [apply SearchPaths.set_of_NoDup|].
  split.
  { intros podName. unfold pods, podsToSearchForHeaders.
    rewrite SearchPaths.set_of_elem.
    change ([EmptyString] ++ deps ++ FIXED_PODS)%list
      with (EmptyString :: deps ++ FIXED_PODS)%list.
    rewrite elem_of_cons, elem_of_app. tauto. }
  split; [reflexivity|].
  split; [by exists more|].
  split; [exact Hroot|].
  rewrite SearchPaths.constructHeaderSearchPaths_eq.
  unfold podsToSearchForHeaders.
  change ([EmptyString] ++ deps ++ FIXED_PODS)%list
    with (EmptyString :: deps ++ FIXED_PODS)%list.
  rewrite Hmore, map_cons, Hroot.
  apply SearchPaths.startsWith_join.
Qed.

(** C6 at the root [/expo/ios], for dependencies that repeat a name and
    name a fixed pod. *)
Lemma C6_witness :
  constructHeaderSearchPaths Samples.root ["Y"; "Yoga"; "Y"]
  = "$(inherited) " ++
    join " " (map (header_path Samples.root)
                  (podsToSearchForHeaders ["Y"; "Yoga"; "Y"])).
Proof.
  apply (C6_header_search_paths Samples.root ["Y"; "Yoga"; "Y"]).
  vm_compute. reflexivity.
Defined.

(** C7.  [generateXcodeProjectAsync] writes the serialised spec to
    [<dir>/<name>.spec.json] before it runs the generator.  When the
    generator returns, the file is removed and the path
    [<dir>/<name>.xcodeproj] is returned, whatever the generator left on
    disk.  When the generator throws, the call throws and the files stay as
    the generator left them: the spec file is not removed. *)
Theorem C7_generate_xcode_project EXPOTOOLS_DIR toJSON spawnAsync dir spec fs :
  let specPath := Path.join [dir; spec_name spec ++ ".spec.json"] in
  let written : Files := <[specPath := toJSON spec]> fs in
  let call :=
    spawnAsync "yarn"
      ["--silent"; "run"; "xcodegen"; "--quiet"; "--spec"; specPath]
      EXPOTOOLS_DIR written in
  written !! specPath = Some (toJSON spec) ∧
  (∀ fs', call = Returned tt fs' →
     generateXcodeProjectAsync EXPOTOOLS_DIR toJSON spawnAsync dir spec fs
     = Returned (Path.join [dir; spec_name spec ++ ".xcodeproj"])
                (delete specPath fs') ∧
     delete specPath fs' !! specPath = None) ∧
  (∀ fs', call = Thrown fs' →
     generateXcodeProjectAsync EXPOTOOLS_DIR toJSON spawnAsync dir spec fs
     = Thrown fs' ∧
     (fs' !! specPath = written !! specPath →
      fs' !! specPath = Some (toJSON spec))).
Proof.
  intros specPath written call.
  split; [apply lookup_insert_eq|]. split.
  - intros fs' Hcall. split; [|apply lookup_delete_eq].
    unfold generateXcodeProjectAsync. fold specPath.
    unfold bind at 1. unfold outputJSON, modify. fold written.
    rewrite (Generator.bind_Returned _ _ _ tt fs' Hcall).
    done.
  - intros fs' Hcall. split.
    + unfold generateXcodeProjectAsync. fold specPath.
      unfold bind at 1. unfold outputJSON, modify. fold written.
      by rewrite (Generator.bind_Thrown _ _ _ fs' Hcall).
    + intros ->. apply lookup_insert_eq.
Qed.

(** C7 with a generator that fails and with one that returns and produces
    nothing. *)
Lemma C7_witness :
  generateXcodeProjectAsync Samples.tools Samples.json Samples.failing
    "/tmp/build" Samples.empty_spec ∅
  = Thrown {[ "/tmp/build/EXLocation.spec.json" := "{}" ]} ∧
  generateXcodeProjectAsync Samples.tools Samples.json Samples.idle
    "/tmp/build" Samples.empty_spec ∅
  = Returned "/tmp/build/EXLocation.xcodeproj" ∅.
Proof.
  split.
  - destruct (proj2 (proj2 (C7_generate_xcode_project Samples.tools
                Samples.json Samples.failing "/tmp/build" Samples.empty_spec ∅))
                {[ "/tmp/build/EXLocation.spec.json" := "{}" ]}) as [H _].
    + vm_compute. reflexivity.
    + exact H.
  - destruct (proj1 (proj2 (C7_generate_xcode_project Samples.tools
                Samples.json Samples.idle "/tmp/build" Samples.empty_spec ∅))
                {[ "/tmp/build/EXLocation.spec.json" := "{}" ]}) as [H _].
    + vm_compute. reflexivity.
    + rewrite H. vm_compute. reflexivity.
Defined.




(** C9, against the claim as it is worded.  With no package to clean the
    task still writes the blank line that opens its log: it is not without
    effect.  And when the build of the first of two packages rejects, the
    prebuild task stops there: the second package is never built, so the
    operation is not called once for every package that can be prebuilt. *)
Lemma C9_counterexample :
  Tasks.cleanPrebuilds string string id (λ _, false) Samples.resolves
    ["expo-a"; "expo-b"] []
  = Returned tt [Tasks.logger_log string] ∧
  Tasks.cleanPrebuilds string string id (λ _, false) Samples.resolves
    ["expo-a"; "expo-b"] []
  ≠ Returned tt [] ∧
  ∃ trace,
    Tasks.prebuildPackages string string id id (λ _, true) id
      Samples.no_build ["expo-a"; "expo-b"] []
    = Thrown trace ∧
    Tasks.prebuildPackage string "expo-a" true ∈ trace ∧
    Tasks.prebuildPackage string "expo-b" true ∉ trace.
Proof.
  assert (Tasks.cleanPrebuilds string string id (λ _, false)
            Samples.resolves ["expo-a"; "expo-b"] []
          = Returned tt [Tasks.logger_log string]) as E
    by (vm_compute; reflexivity).
  split; [exact E|]. split; [rewrite E; discriminate|].
  eexists. split; [vm_compute; reflexivity|].
  split.
  - right. right. by left.
  - intros Hin. repeat (apply elem_of_cons in Hin as [Hin|Hin]; [discriminate Hin|]).
    by apply elem_of_nil in Hin.
Qed.

(** C9, amended.  The clean task calls the clean operation once, with the
    packages that can be prebuilt, in input order, when there is at least
    one, and throws when that call rejects; with no such package it calls
    no operation and announces nothing, and the blank line that opens its
    log is all it writes.  The prebuild task takes the packages that can be
    prebuilt one after the other in input order, and calls the prebuild
    operation for each after a log line for that package, as long as no
    call rejects: when none does, the operation has been called once for
    every such package; when the call for a package rejects, the task
    throws and the packages after that one are not built. *)
Theorem C9_tasks {Package Parcel : Type} (pkg : Parcel → Package)
  (packageName : Package → string) (canPrebuildPackage : Package → bool)
  (green : string → string)
  (rejects : list (Tasks.Effect Package) → Tasks.Effect Package → bool)
  (parcels : list Parcel) (trace : list (Tasks.Effect Package)) :
  let packages :=
    filter (λ p, canPrebuildPackage p = true) (map pkg parcels) in
  let announce := λ package,
    [ Tasks.logger_info Package "👷‍♀️ Prebuilding %s"
        [green (packageName package)];
      Tasks.prebuildPackage Package package true ] in
  let build_rejects :=
    Tasks.build_rejects Package packageName green rejects trace in
  Tasks.cleanPrebuilds Package Parcel pkg canPrebuildPackage rejects
    parcels trace
  = match packages with
    | [] => Returned tt (trace ++ [Tasks.logger_log Package])%list
    | _ =>
        (if Tasks.clean_rejects Package rejects trace packages
         then Thrown else Returned tt)
          (trace ++
           [ Tasks.logger_log Package;
             Tasks.logger_info Package "🧹 Cleaning prebuilt resources %s" [];
             Tasks.cleanFrameworks Package packages ])%list
    end ∧
  ((∀ before package after,
      packages = (before ++ package :: after)%list →
      build_rejects before package = false) →
   Tasks.prebuildPackages Package Parcel pkg packageName canPrebuildPackage
     green rejects parcels trace
   = Returned tt
       (trace ++ Tasks.logger_log Package :: flat_map announce packages)%list) ∧
  (∀ before package after,
     packages = (before ++ package :: after)%list →
     (∀ built earlier later,
        before = (built ++ earlier :: later)%list →
        build_rejects built earlier = false) →
     build_rejects before package = true →
     Tasks.prebuildPackages Package Parcel pkg packageName canPrebuildPackage
       green rejects parcels trace
     = Thrown
         (trace ++ Tasks.logger_log Package ::
          flat_map announce (before ++ [package]))%list).
Proof.
  intros packages announce build_rejects.
  split.
  { rewrite TaskFacts.cleanPrebuilds_trace. unfold packages.
    by destruct (filter _ (map pkg parcels)). }
  split.
  - intros Hall. by apply TaskFacts.prebuildPackages_returns.
  - intros before package after Hsplit Hearlier Hrejects.
    by apply (TaskFacts.prebuildPackages_throws _ _ _ _ _ _ _ before
                package after).
Qed.

(** C9 with a pre-builder whose operations resolve, and with one whose
    builds reject, for two packages. *)
Lemma C9_witness :
  Tasks.prebuildPackages string string id id (λ _, true) id Samples.resolves
    ["expo-a"; "expo-b"] []
  = Returned tt
      [ Tasks.logger_log string;
        Tasks.logger_info string "👷‍♀️ Prebuilding %s" ["expo-a"];
        Tasks.prebuildPackage string "expo-a" true;
        Tasks.logger_info string "👷‍♀️ Prebuilding %s" ["expo-b"];
        Tasks.prebuildPackage string "expo-b" true ] ∧
  Tasks.prebuildPackages string string id id (λ _, true) id Samples.no_build
    ["expo-a"; "expo-b"] []
  = Thrown
      [ Tasks.logger_log string;
        Tasks.logger_info string "👷‍♀️ Prebuilding %s" ["expo-a"];
        Tasks.prebuildPackage string "expo-a" true ].
Proof.
  split.
  - apply (proj1 (proj2 (C9_tasks id id (λ _, true) id Samples.resolves
                           ["expo-a"; "expo-b"] []))).
    intros before package after _. reflexivity.
  - apply (proj2 (proj2 (C9_tasks id id (λ _, true) id Samples.no_build
                           ["expo-a"; "expo-b"] []))
             [] "expo-a" ["expo-b"]).
    + vm_compute. reflexivity.
    + intros built earlier later Hsplit. by destruct built.
    + reflexivity.
Defined.

(** C10.  Every character of a bundle identifier is a lower-case letter, a
    digit or a dot: none is a capital, none is an underscore. *)
Theorem C10_no_capital_no_underscore podName :
  Forall (λ a, (is_lower a || is_digit a || is_char "." a) = true ∧
               is_capital a = false ∧ is_upper a = false ∧ a ≠ "_"%char)
    (chars (podNameToBundleId podName)).
Proof.
  eapply Forall_impl; [apply Alphabet.bundleId_alphabet|].
  intros a Ha. split; [exact Ha|].
  destruct (Alphabet.ok_out_spec a Ha) as [Hc Hu]. split; [exact Hc|].
  split; [|exact Hu].
  unfold is_capital in Hc. by apply orb_false_elim in Hc as [? _].
Qed.

(** * Further properties *)

(** ** Merging configurations, continued *)

Module MergeMore.
Import Js JsFacts XcodeGen Merge.

Lemma merge_nil : mergeXcodeConfigs [] = ∅.
Proof. done. Qed.

(** One configuration comes back without its key [__proto__]. *)
Lemma merge_single (config : gmap string JsVal) :
  mergeXcodeConfigs [config] = delete "__proto__" config.
Proof.
  apply map_eq. intros key.
  destruct (decide (key = "__proto__")) as [->|Hkey].
  - by rewrite merge_no_proto, lookup_delete_eq.
  - pose proof (mergeXcodeConfigs_snoc [] config key Hkey) as H.
    simpl app in H. rewrite H, merge_nil, lookup_delete_ne by done.
    destruct (config !! key); [|apply lookup_empty].
    unfold get. by rewrite lookup_empty.
Qed.

Lemma merge_keys (configs : list (gmap string JsVal)) key :
  is_Some (mergeXcodeConfigs configs !! key) ↔
  key ≠ "__proto__" ∧ ∃ config, config ∈ configs ∧ is_Some (config !! key).
Proof.
  destruct (decide (key = "__proto__")) as [->|Hkey].
  { rewrite merge_no_proto. split; [by intros [? ?] | by intros [? _]]. }
  induction configs as [|later earlier IH] using rev_ind.
  - rewrite merge_nil, lookup_empty. split.
    + by intros [? ?].
    + intros (_ & config & Hin & _). by apply elem_of_nil in Hin.
  - rewrite mergeXcodeConfigs_snoc by done. split.
    + destruct (later !! key) as [value|] eqn:Hk.
      * intros _. split; [done|]. exists later. split; [|by rewrite Hk].
        apply elem_of_app. right. by left.
      * intros (_ & config & Hin & Hc)%IH. split; [done|].
        exists config. split; [|done]. apply elem_of_app. by left.
    + intros (_ & config & Hin & Hc).
      destruct (later !! key) as [value|] eqn:Hk; [done|].
      apply IH. split; [done|]. apply elem_of_app in Hin as [Hin|Hin].
      * by exists config.
      * apply list_elem_of_singleton in Hin. subst config.
        rewrite Hk in Hc. by destruct Hc.
Qed.

Lemma merge_skip_empty (before after : list (gmap string JsVal)) :
  mergeXcodeConfigs (before ++ ∅ :: after) = mergeXcodeConfigs (before ++ after).
Proof.
  unfold mergeXcodeConfigs. rewrite !fold_left_app. simpl.
  by rewrite map_fold_empty.
Qed.

Lemma merge_token (earlier : list (gmap string JsVal))
  (later : gmap string JsVal) key prev value :
  get (mergeXcodeConfigs earlier) key = VStr prev →
  Js.includes "$(inherited)" prev = true →
  later !! key = Some value →
  mergeXcodeConfigs (earlier ++ [later]) !! key
  = Some (VStr ("$(inherited) " ++ prev ++ " " ++ toString value)) ∧
  contains_inherited (get (mergeXcodeConfigs (earlier ++ [later])) key) = true.
Proof.
  intros Hprev Htoken Hlater.
  assert (key ≠ "__proto__") as Hkey.
  { intros ->. unfold get in Hprev. by rewrite merge_no_proto in Hprev. }
  assert (mergeXcodeConfigs (earlier ++ [later]) !! key
          = Some (VStr ("$(inherited) " ++ prev ++ " " ++ toString value))) as E.
  { rewrite mergeXcodeConfigs_snoc, Hlater, Hprev by done.
    by rewrite mergeXcodeConfigValue_inherited. }
  split; [exact E|]. unfold get. rewrite E. done.
Qed.

(** Two configurations: the keys of the first that the second lacks. *)
Lemma merge_pair_old (first second : gmap string JsVal) key :
  key ≠ "__proto__" → second !! key = None →
  mergeXcodeConfigs [first; second] !! key = first !! key.
Proof.
  intros Hkey Hnone.
  pose proof (mergeXcodeConfigs_snoc [first] second key Hkey) as H.
  simpl app in H. rewrite H, Hnone, merge_single.
  by apply lookup_delete_ne.
Qed.

(** Two configurations: a key of the second, over a value of the first
    that does not hold the token. *)
Lemma merge_pair_new (first second : gmap string JsVal) key value :
  key ≠ "__proto__" → second !! key = Some value →
  contains_inherited (get first key) = false →
  mergeXcodeConfigs [first; second] !! key = Some value.
Proof.
  intros Hkey Hvalue Hplain.
  pose proof (mergeXcodeConfigs_snoc [first] second key Hkey) as H.
  simpl app in H. rewrite H, Hvalue, merge_single.
  rewrite mergeXcodeConfigValue_plain; [done|].
  unfold get in *. by rewrite lookup_delete_ne.
Qed.

End MergeMore.

Import Js IO XcodeGen Reading.

(** X1.  Merging one configuration map gives that map back without its key
    [__proto__], if it has one: unchanged otherwise, whatever its values
    hold. *)
Theorem X1_merge_single (config : gmap string JsVal) :
  mergeXcodeConfigs [config] = delete "__proto__" config ∧
  (config !! "__proto__" = None → mergeXcodeConfigs [config] = config).
Proof.
  split; [apply MergeMore.merge_single|].
  intros Hnone. rewrite MergeMore.merge_single. by apply delete_id.
Qed.

(** X1 at the map [{A: "$(inherited) x"}]. *)
Lemma X1_witness :
  mergeXcodeConfigs [ {[ "A" := VStr "$(inherited) x" ]} ]
  = {[ "A" := VStr "$(inherited) x" ]}.
Proof.
  apply (proj2 (X1_merge_single {[ "A" := VStr "$(inherited) x" ]})).
  vm_compute. reflexivity.
Defined.

(** X2.  The keys of a merged configuration are the keys of the maps that
    were merged, except [__proto__]: no other key is lost and none is made
    up. *)
Theorem X2_merge_keys (configs : list (gmap string JsVal)) key :
  is_Some (mergeXcodeConfigs configs !! key) ↔
  key ≠ "__proto__" ∧ ∃ config, config ∈ configs ∧ is_Some (config !! key).
Proof. apply MergeMore.merge_keys. Qed.

(** X3.  An empty map among the merged ones changes nothing, wherever it
    stands. *)
Theorem X3_merge_skip_empty (before after : list (gmap string JsVal)) :
  mergeXcodeConfigs (before ++ ∅ :: after) = mergeXcodeConfigs (before ++ after).
Proof. apply MergeMore.merge_skip_empty. Qed.

(** X4.  When the value merged so far for a key is a string that holds the
    token, the next value for that key gives the token, a space, the value
    so far, a space and the next value: the value so far is kept whole, and
    the result holds the token again. *)
Theorem X4_merge_token (earlier : list (gmap string JsVal))
  (later : gmap string JsVal) key prev value :
  get (mergeXcodeConfigs earlier) key = VStr prev →
  Js.includes "$(inherited)" prev = true →
  later !! key = Some value →
  mergeXcodeConfigs (earlier ++ [later]) !! key
  = Some (VStr ("$(inherited) " ++ prev ++ " " ++ toString value)) ∧
  contains_inherited (get (mergeXcodeConfigs (earlier ++ [later])) key) = true.
Proof. apply MergeMore.merge_token. Qed.

(** X4 at the maps [{A: "$(inherited) x"}] and [{A: 7}]. *)
Lemma X4_witness :
  mergeXcodeConfigs ([ {[ "A" := VStr "$(inherited) x" ]} ] ++ [ {[ "A" := VNum 7 ]} ])
    !! "A"
  = Some (VStr "$(inherited) $(inherited) x 7").
Proof.
  apply (X4_merge_token [ {[ "A" := VStr "$(inherited) x" ]} ]
           {[ "A" := VNum 7 ]} "A" "$(inherited) x" (VNum 7)).
  - vm_compute. reflexivity.
  - vm_compute. reflexivity.
  - vm_compute. reflexivity.
Defined.

(** ** The translation of a manifest, continued *)

Module TranslatorMore.
Import Js JsFacts XcodeGen Reading Merge MergeMore.

Lemma createSpec_more IOS_DIR podspec resolver n :
  Semver.major (version podspec) = Some n →
  ∃ spec,
    createSpecFromPodspecAsync IOS_DIR podspec resolver = Some spec ∧
    target_settings_of spec
    = Some (mergeXcodeConfigs
              [ or_empty (pod_target_xcconfig podspec);
                {[ "MACH_O_TYPE" := VStr "staticlib" ]} ]) ∧
    platform_of spec
    = Some (map (read PLATFORMS_MAPPING) (Object_keys (platforms podspec))) ∧
    (∃ st, settings_of spec = Some st ∧
           st !! "IPHONEOS_DEPLOYMENT_TARGET"
           = Some (str_or_undef (prop (platforms podspec) "ios")) ∧
           st !! "PRODUCT_BUNDLE_IDENTIFIER"
           = Some (VStr (podNameToBundleId (podspec_name podspec)))).
Proof.
  intros Hn. unfold createSpecFromPodspecAsync. rewrite Hn. simpl.
  eexists. split; [done|].
  unfold target_settings_of, platform_of, settings_of, target_of.
  simpl. rewrite decide_True by done. simpl.
  split; [done|]. split; [done|].
  eexists. split; [done|]. split; by simplify_map_eq.
Qed.

(** The assignments of a [reduce]: which keys are set, and to what. *)
Lemma fold_insert_is_Some {A} (K : A → string) (V : A → JsVal) l :
  ∀ (acc : gmap string JsVal) k,
    is_Some (fold_left (λ acc q, <[K q := V q]> acc) l acc !! k) ↔
    is_Some (acc !! k) ∨ ∃ q, q ∈ l ∧ K q = k.
Proof.
  induction l as [|x l IH]; intros acc k; simpl.
  - split; [by left|]. intros [?|(q & Hq & _)]; [done|].
    by apply elem_of_nil in Hq.
  - rewrite IH. split.
    + intros [Hacc|(q & Hq & Hk)].
      * destruct (decide (K x = k)) as [Hx|Hx].
        -- right. exists x. split; [by left | done].
        -- left. by rewrite lookup_insert_ne in Hacc.
      * right. exists q. split; [by right | done].
    + intros [Hacc|(q & Hq & Hk)].
      * left. destruct (decide (K x = k)) as [<-|Hx].
        -- by rewrite lookup_insert_eq.
        -- by rewrite lookup_insert_ne.
      * apply elem_of_cons in Hq as [->|Hq].
        -- left. rewrite <- Hk. by rewrite lookup_insert_eq.
        -- right. by exists q.
Qed.

Lemma fold_insert_value {A} (K : A → string) (V : A → JsVal) l :
  ∀ (acc : gmap string JsVal) k x,
    fold_left (λ acc q, <[K q := V q]> acc) l acc !! k = Some x →
    acc !! k = Some x ∨ ∃ q, q ∈ l ∧ K q = k ∧ V q = x.
Proof.
  induction l as [|y l IH]; intros acc k x; simpl; [by left|].
  intros [Hacc|(q & Hq & Hk & Hv)]%IH.
  - destruct (decide (K y = k)) as [Hy|Hy].
    + subst k. rewrite lookup_insert_eq in Hacc. injection Hacc as <-.
      right. exists y. split; [by left | done].
    + rewrite lookup_insert_ne in Hacc by done. by left.
  - right. exists q. split; [by right | done].
Qed.

(** The text of a member of [Object.prototype] is no platform name. *)
Lemma member_text_not_iOS name : member_text name ≠ "iOS".
Proof.
  unfold member_text. repeat case_decide; discriminate.
Qed.

(** Only the key [ios] translates to [iOS]. *)
Lemma translated_iOS key : translated key = "iOS" → key = "ios".
Proof.
  unfold translated, read, PLATFORMS_MAPPING. simpl.
  repeat (case_decide; [subst; simpl; congruence|]).
  case_bool_decide; simpl; [|congruence].
  intros Htext. by apply member_text_not_iOS in Htext.
Qed.

Lemma prop_Some_key {V} (o : list (string * V)) key v :
  prop o key = Some v → key ∈ Object_keys o.
Proof.
  induction o as [|[k x] o IH]; simpl; [done|].
  case_decide as Hk.
  - intros _. subst. by left.
  - intros H. right. by apply IH.
Qed.

Lemma prop_None_key {V} (o : list (string * V)) key :
  prop o key = None → key ∉ Object_keys o.
Proof.
  induction o as [|[k x] o IH]; simpl.
  - intros _. apply not_elem_of_nil.
  - case_decide as Hk; [done|]. intros H.
    apply not_elem_of_cons. split; [congruence | by apply IH].
Qed.

(** The token does not occur in a bundle identifier. *)
Lemma includes_head a p s :
  Js.includes (String a p) s = true → a ∈ chars s.
Proof.
  induction s as [|b t IH]; simpl; [done|].
  case_decide as Hab.
  - intros _. subst. by left.
  - simpl. intros H. right. by apply IH.
Qed.

Lemma bundleId_no_token podName :
  contains_inherited (VStr (podNameToBundleId podName)) = false.
Proof.
  simpl. destruct (Js.includes _ _) eqn:H; [|done].
  apply includes_head in H.
  pose proof (Alphabet.bundleId_alphabet podName) as Hall.
  rewrite Forall_forall in Hall. by apply Hall in H.
Qed.

(** A key that is none of the table's. *)
Lemma read_unknown key :
  key ∉ ["ios"; "osx"; "macos"; "tvos"; "watchos"] →
  read PLATFORMS_MAPPING key
  = if bool_decide (key ∈ Object_prototype) then Inherited key
    else Undefined.
Proof.
  intros Hkey. unfold read.
  assert (prop PLATFORMS_MAPPING key = None) as ->; [|done].
  simpl.
  rewrite !not_elem_of_cons in Hkey.
  destruct Hkey as (? & ? & ? & ? & ? & _).
  by rewrite !decide_False by done.
Qed.

End TranslatorMore.

(** X5.  The target's build settings are the manifest's
    [pod_target_xcconfig] with [MACH_O_TYPE] forced to [staticlib]: every
    other key passes through unchanged, except [__proto__], which the
    settings never have, and [MACH_O_TYPE] is [staticlib] unless the
    manifest's own value for it holds the token. *)
Theorem X5_target_settings IOS_DIR podspec resolver n :
  Semver.major (version podspec) = Some n →
  ∃ spec st,
    createSpecFromPodspecAsync IOS_DIR podspec resolver = Some spec ∧
    target_settings_of spec = Some st ∧
    (contains_inherited
       (get (or_empty (pod_target_xcconfig podspec)) "MACH_O_TYPE") = false →
     st !! "MACH_O_TYPE" = Some (VStr "staticlib")) ∧
    (∀ key, key ≠ "MACH_O_TYPE" → key ≠ "__proto__" →
            st !! key = or_empty (pod_target_xcconfig podspec) !! key) ∧
    st !! "__proto__" = None.
Proof.
  intros Hn.
  destruct (TranslatorMore.createSpec_more IOS_DIR podspec resolver n Hn)
    as (spec & Hs & Hst & _).
  eexists spec, _. split; [exact Hs|]. split; [exact Hst|].
  split; [|split].
  - intros Hplain. apply MergeMore.merge_pair_new; [done| |done].
    apply lookup_singleton_eq.
  - intros key Hkey Hproto. apply MergeMore.merge_pair_old; [done|].
    by apply lookup_singleton_ne.
  - apply Merge.merge_no_proto.
Qed.

(** X5 at the manifest [Samples.location]. *)
Lemma X5_witness :
  ∃ spec st,
    createSpecFromPodspecAsync Samples.root Samples.location Samples.only_Y
    = Some spec ∧
    target_settings_of spec = Some st ∧
    st !! "MACH_O_TYPE" = Some (VStr "staticlib").
Proof.
  destruct (X5_target_settings Samples.root Samples.location Samples.only_Y 1%N)
    as (spec & st & Hs & Hst & Hmach & _ & _).
  - vm_compute. reflexivity.
  - exists spec, st. split; [exact Hs|]. split; [exact Hst|].
    apply Hmach. vm_compute. reflexivity.
Defined.

(** X6.  In the info properties an entry of the manifest's [info_plist]
    always wins, for every key but [CFBundleName] and
    [CFBundleShortVersionString] (whose computed values are the raw name
    and version) and but [__proto__], which the properties never have: a
    bundle identifier never holds the token and the bundle version is a
    number.  Without an entry of the manifest the identifier is the derived
    one. *)
Theorem X6_info_overrides IOS_DIR podspec resolver n :
  Semver.major (version podspec) = Some n →
  ∃ spec props,
    createSpecFromPodspecAsync IOS_DIR podspec resolver = Some spec ∧
    properties_of spec = Some props ∧
    (∀ key value,
       or_empty (info_plist podspec) !! key = Some value →
       key ≠ "CFBundleName" → key ≠ "CFBundleShortVersionString" →
       key ≠ "__proto__" →
       props !! key = Some value) ∧
    props !! "__proto__" = None ∧
    (or_empty (info_plist podspec) !! "CFBundleIdentifier" = None →
     props !! "CFBundleIdentifier"
     = Some (VStr (podNameToBundleId (podspec_name podspec)))).
Proof.
  intros Hn.
  destruct (Translator.createSpec_parts IOS_DIR podspec resolver n Hn)
    as (spec & Hs & _ & Hp & _).
  eexists spec, _. split; [exact Hs|]. split; [exact Hp|].
  set (computed :=
         <[ "CFBundleVersion" := VNum n ]>
           (<[ "CFBundleShortVersionString" := VStr (version podspec) ]>
              (<[ "CFBundleName" := VStr (podspec_name podspec) ]>
                 {[ "CFBundleIdentifier" :=
                      VStr (podNameToBundleId (podspec_name podspec)) ]}))
         : gmap string JsVal).
  split; [|split].
  - intros key value Hv Hname Hshort Hproto.
    apply MergeMore.merge_pair_new; [done..|].
    unfold get, computed.
    destruct (decide (key = "CFBundleVersion")) as [->|?];
      [by rewrite lookup_insert_eq|].
    rewrite lookup_insert_ne by done.
    rewrite lookup_insert_ne by done.
    rewrite lookup_insert_ne by done.
    destruct (decide (key = "CFBundleIdentifier")) as [->|?].
    + rewrite lookup_singleton_eq. apply TranslatorMore.bundleId_no_token.
    + by rewrite lookup_singleton_ne.
  - apply Merge.merge_no_proto.
  - intros Hnone. rewrite MergeMore.merge_pair_old by done.
    unfold computed. by simplify_map_eq.
Qed.

(** X6 at the manifest [Samples.location], which has no [info_plist]. *)
Lemma X6_witness :
  ∃ spec props,
    createSpecFromPodspecAsync Samples.root Samples.location Samples.only_Y
    = Some spec ∧
    properties_of spec = Some props ∧
    props !! "CFBundleIdentifier" = Some (VStr "expo.location").
Proof.
  destruct (X6_info_overrides Samples.root Samples.location Samples.only_Y 1%N)
    as (spec & props & Hs & Hp & _ & _ & Hid).
  - vm_compute. reflexivity.
  - exists spec, props. split; [exact Hs|]. split; [exact Hp|].
    apply Hid. vm_compute. reflexivity.
Defined.

(** X7.  The keys of the deployment targets are the names of the target's
    platform list, [undefined] included: each platform of the list has a
    deployment target, and there is no deployment target for anything
    else. *)
Theorem X7_deployment_target_keys IOS_DIR podspec resolver n :
  Semver.major (version podspec) = Some n →
  ∃ spec dt listed,
    createSpecFromPodspecAsync IOS_DIR podspec resolver = Some spec ∧
    deploymentTarget_of spec = Some dt ∧
    platform_of spec = Some listed ∧
    length listed = length (platforms podspec) ∧
    (∀ name, is_Some (dt !! name) ↔ ∃ p, p ∈ listed ∧ key_of p = name).
Proof.
  intros Hn.
  destruct (Translator.createSpec_parts IOS_DIR podspec resolver n Hn)
    as (spec & Hs & _ & _ & Hdt).
  destruct (TranslatorMore.createSpec_more IOS_DIR podspec resolver n Hn)
    as (spec' & Hs' & _ & Hpl & _).
  rewrite Hs in Hs'. injection Hs' as <-.
  eexists spec, _, _. split; [exact Hs|]. split; [exact Hdt|].
  split; [exact Hpl|]. split.
  - unfold Object_keys. by rewrite !length_map.
  - intros name. rewrite TranslatorMore.fold_insert_is_Some.
    rewrite lookup_empty. split.
    + intros [[? ?]|(key & Hkey & Hname)]; [done|].
      exists (read PLATFORMS_MAPPING key). split; [|exact Hname].
      apply list_elem_of_fmap. by exists key.
    + intros (p & Hp & Hname). right.
      apply list_elem_of_fmap in Hp as (key & -> & Hkey). by exists key.
Qed.

(** X7 at a manifest for [ios] and [osx]. *)
Lemma X7_witness :
  ∃ spec dt listed,
    createSpecFromPodspecAsync Samples.root Samples.phone_and_desktop
      Samples.only_Y = Some spec ∧
    deploymentTarget_of spec = Some dt ∧
    platform_of spec = Some listed ∧
    length listed = 2%nat.
Proof.
  destruct (X7_deployment_target_keys Samples.root Samples.phone_and_desktop
              Samples.only_Y 1%N) as (spec & dt & listed & Hs & Hdt & Hpl & Hlen & _).
  - vm_compute. reflexivity.
  - exists spec, dt, listed. split; [exact Hs|]. split; [exact Hdt|].
    split; [exact Hpl|]. exact Hlen.
Defined.

(** X8.  A platform key that is none of the mapping table's is not
    refused.  When it is no name of [Object.prototype] either, the target's
    platform list holds [undefined] and the deployment targets hold an
    entry under the key [undefined].  When it is such a name, as
    [constructor] is, the platform list holds that member of
    [Object.prototype], and the deployment targets an entry under its
    text. *)
Theorem X8_unknown_platform IOS_DIR podspec resolver n key :
  Semver.major (version podspec) = Some n →
  key ∈ Object_keys (platforms podspec) →
  key ∉ ["ios"; "osx"; "macos"; "tvos"; "watchos"] →
  ∃ spec dt listed,
    createSpecFromPodspecAsync IOS_DIR podspec resolver = Some spec ∧
    deploymentTarget_of spec = Some dt ∧
    platform_of spec = Some listed ∧
    (key ∉ Object_prototype →
     Undefined ∈ listed ∧ is_Some (dt !! "undefined")) ∧
    (key ∈ Object_prototype →
     Inherited key ∈ listed ∧ is_Some (dt !! member_text key)).
Proof.
  intros Hn Hkey Hunknown.
  destruct (Translator.createSpec_parts IOS_DIR podspec resolver n Hn)
    as (spec & Hs & _ & _ & Hdt).
  destruct (TranslatorMore.createSpec_more IOS_DIR podspec resolver n Hn)
    as (spec' & Hs' & _ & Hpl & _).
  rewrite Hs in Hs'. injection Hs' as <-.
  pose proof (TranslatorMore.read_unknown key Hunknown) as Hread.
  eexists spec, _, _. split; [exact Hs|]. split; [exact Hdt|].
  split; [exact Hpl|]. split.
  - intros Hplain. rewrite bool_decide_eq_false_2 in Hread by done. split.
    + apply list_elem_of_fmap. exists key. by rewrite Hread.
    + apply TranslatorMore.fold_insert_is_Some. right. exists key.
      split; [exact Hkey|]. unfold translated. by rewrite Hread.
  - intros Hmember. rewrite bool_decide_eq_true_2 in Hread by done. split.
    + apply list_elem_of_fmap. exists key. by rewrite Hread.
    + apply TranslatorMore.fold_insert_is_Some. right. exists key.
      split; [exact Hkey|]. unfold translated. by rewrite Hread.
Qed.

(** X8 at the manifest [Reading.headset], for the key [visionos]. *)
Lemma X8_witness :
  ∃ spec dt listed,
    createSpecFromPodspecAsync Samples.root headset Samples.only_Y = Some spec ∧
    deploymentTarget_of spec = Some dt ∧
    platform_of spec = Some listed ∧
    Undefined ∈ listed ∧
    is_Some (dt !! "undefined").
Proof.
  destruct (X8_unknown_platform Samples.root headset Samples.only_Y 1%N
              "visionos")
    as (spec & dt & listed & Hs & Hdt & Hpl & Hplain & _).
  - vm_compute. reflexivity.
  - apply (bool_decide_unpack _). vm_compute. exact I.
  - apply (bool_decide_unpack _). vm_compute. exact I.
  - exists spec, dt, listed. split; [exact Hs|]. split; [exact Hdt|].
    split; [exact Hpl|]. apply Hplain.
    apply (bool_decide_unpack _). vm_compute. exact I.
Defined.

(** X9.  [IPHONEOS_DEPLOYMENT_TARGET] and the deployment target of [iOS]
    agree: both are the version that the manifest gives for [ios], and
    when the manifest has no [ios] key the setting is [undefined] and there
    is no deployment target for [iOS]. *)
Theorem X9_ios_deployment_target IOS_DIR podspec resolver n :
  Semver.major (version podspec) = Some n →
  ∃ spec dt st,
    createSpecFromPodspecAsync IOS_DIR podspec resolver = Some spec ∧
    deploymentTarget_of spec = Some dt ∧
    settings_of spec = Some st ∧
    (∀ minimum,
       prop (platforms podspec) "ios" = Some minimum →
       dt !! "iOS" = Some (VStr minimum) ∧
       st !! "IPHONEOS_DEPLOYMENT_TARGET" = Some (VStr minimum)) ∧
    (prop (platforms podspec) "ios" = None →
     dt !! "iOS" = None ∧
     st !! "IPHONEOS_DEPLOYMENT_TARGET" = Some VUndef).
Proof.
  intros Hn.
  destruct (Translator.createSpec_parts IOS_DIR podspec resolver n Hn)
    as (spec & Hs & _ & _ & Hdt).
  destruct (TranslatorMore.createSpec_more IOS_DIR podspec resolver n Hn)
    as (spec' & Hs' & _ & _ & st & Hst & Hios & _).
  rewrite Hs in Hs'. injection Hs' as <-.
  eexists spec, _, st. split; [exact Hs|]. split; [exact Hdt|].
  split; [exact Hst|]. split.
  - intros minimum Hmin. split; [|by rewrite Hios, Hmin].
    match goal with |- ?m !! _ = _ => destruct (m !! "iOS") as [x|] eqn:Hx end.
    + apply TranslatorMore.fold_insert_value in Hx
        as [Hx|(key & _ & Hkey & Hv)]; [by rewrite lookup_empty in Hx|].
      apply TranslatorMore.translated_iOS in Hkey. subst key.
      rewrite Hmin in Hv. by subst x.
    + assert (is_Some (fold_left
                (λ acc platform,
                   <[translated platform :=
                       str_or_undef (prop (platforms podspec) platform)]> acc)
                (Object_keys (platforms podspec)) (∅ : gmap string JsVal)
                !! "iOS")) as [y Hy].
      { apply TranslatorMore.fold_insert_is_Some. right. exists "ios".
        split; [by eapply TranslatorMore.prop_Some_key | done]. }
      rewrite Hy in Hx. discriminate Hx.
  - intros Hnone. split; [|by rewrite Hios, Hnone].
    apply eq_None_not_Some.
    intros [Hempty|(key & Hkey & Hname)]%TranslatorMore.fold_insert_is_Some.
    + rewrite lookup_empty in Hempty. by destruct Hempty.
    + apply TranslatorMore.translated_iOS in Hname. subst key.
      by apply TranslatorMore.prop_None_key in Hnone.
Qed.

(** X9 at the manifest [Samples.location], whose [ios] version is 12.0. *)
Lemma X9_witness :
  ∃ spec dt st,
    createSpecFromPodspecAsync Samples.root Samples.location Samples.only_Y
    = Some spec ∧
    deploymentTarget_of spec = Some dt ∧
    settings_of spec = Some st ∧
    dt !! "iOS" = Some (VStr "12.0") ∧
    st !! "IPHONEOS_DEPLOYMENT_TARGET" = Some (VStr "12.0").
Proof.
  destruct (X9_ios_deployment_target Samples.root Samples.location
              Samples.only_Y 1%N) as (spec & dt & st & Hs & Hdt & Hst & Hsome & _).
  - vm_compute. reflexivity.
  - exists spec, dt, st. split; [exact Hs|]. split; [exact Hdt|].
    split; [exact Hst|]. apply Hsome. vm_compute. reflexivity.
Defined.

(** ** More on the search paths *)

Module SearchPathsMore.
Import Js XcodeGen SearchPaths.

Lemma filter_none {A} (P : A → Prop) `{∀ x, Decision (P x)} (l : list A) :
  Forall (λ x, ¬ P x) l → filter P l = [].
Proof.
  induction 1 as [|x l Hx _ IH]; [done|].
  by rewrite filter_cons_False.
Qed.

Lemma rev_str_app s : ∀ t acc,
  rev_str (s ++ t) acc = rev_str t (rev_str s acc).
Proof.
  induction s as [|a s IH]; intros t acc; [done|].
  rewrite append_cons. simpl. apply IH.
Qed.

Lemma rev_str_acc s : ∀ acc,
  rev_str s acc = rev_str s EmptyString ++ acc.
Proof.
  induction s as [|a s IH]; intros acc; [done|].
  simpl. rewrite IH, (IH (String a EmptyString)).
  by rewrite append_assoc.
Qed.

(** Dropping the white space at the front stops at the first character
    that is none. *)
Lemma drop_while_app (p : ascii → bool) c b a :
  p c = false →
  ∃ a', drop_while p (a ++ String c b) = a' ++ String c b.
Proof.
  intros Hc. induction a as [|x a IH].
  - exists EmptyString. simpl. by rewrite Hc.
  - rewrite append_cons. simpl. destruct (p x).
    + exact IH.
    + exists (String x a). by rewrite append_cons.
Qed.

(** Trimming keeps the token at the front. *)
Lemma trim_keeps_token rest :
  ∃ tail, trim ("$(inherited) " ++ rest) = "$(inherited)" ++ tail.
Proof.
  unfold trim.
  change (drop_while is_space ("$(inherited) " ++ rest))
    with ("$(inherited) " ++ rest).
  rewrite rev_str_app.
  change (rev_str "$(inherited) " EmptyString) with (" )detirehni($").
  rewrite (rev_str_acc rest).
  change (" )detirehni($") with (" " ++ String ")" "detirehni($").
  rewrite <- append_assoc.
  destruct (drop_while_app is_space ")" "detirehni($"
              (rev_str rest EmptyString ++ " ")) as [a' ->]; [done|].
  rewrite rev_str_app.
  change (rev_str (String ")" "detirehni($") (rev_str a' EmptyString))
    with ("$(inherited)" ++ rev_str a' EmptyString).
  by eexists.
Qed.

Lemma fold_set_add_known l1 d l2 : ∀ acc,
  NoDup acc → d ∈ acc ∨ d ∈ l1 →
  fold_left set_add (l1 ++ d :: l2) acc = fold_left set_add (l1 ++ l2) acc.
Proof.
  intros acc Hacc Hd. rewrite !fold_left_app. simpl.
  destruct (fold_set_add l1 acc Hacc) as (_ & Hin & _).
  unfold set_add at 2. rewrite bool_decide_eq_true_2; [done|].
  by apply Hin.
Qed.

Lemma fold_set_add_length l : ∀ acc,
  (length (fold_left set_add l acc) ≤ length acc + length l)%nat.
Proof.
  induction l as [|x l IH]; intros acc; simpl; [lia|].
  etrans; [apply IH|]. unfold set_add. case_bool_decide; [lia|].
  rewrite length_app. simpl. lia.
Qed.

Lemma fold_set_add_fresh l : ∀ acc,
  NoDup (acc ++ l) → fold_left set_add l acc = (acc ++ l)%list.
Proof.
  induction l as [|x l IH]; intros acc Hnd; simpl.
  - by rewrite app_nil_r.
  - unfold set_add at 2. rewrite bool_decide_eq_false_2.
    + rewrite IH; rewrite <- app_assoc; done.
    + apply NoDup_app in Hnd as (_ & Hdis & _). intros Hx.
      apply (Hdis x Hx). by left.
Qed.

Lemma fixed_names_NoDup : NoDup (EmptyString :: FIXED_PODS).
Proof. apply (bool_decide_unpack _). vm_compute. exact I. Qed.

Lemma pods_length deps :
  (10 ≤ length (podsToSearchForHeaders deps) ≤ 10 + length deps)%nat.
Proof.
  unfold podsToSearchForHeaders. split.
  - change 10%nat with (length (EmptyString :: FIXED_PODS)).
    apply submseteq_length, NoDup_submseteq; [apply fixed_names_NoDup|].
    intros x Hx. apply set_of_elem.
    change ([EmptyString] ++ deps ++ FIXED_PODS)%list
      with (EmptyString :: deps ++ FIXED_PODS)%list.
    rewrite elem_of_cons, elem_of_app.
    apply elem_of_cons in Hx as [->|Hx]; auto.
  - unfold set_of. etrans; [apply fold_set_add_length|].
    simpl. rewrite length_app. simpl. lia.
Qed.

End SearchPathsMore.

(** X10.  With no dependency that has a framework, the framework search
    paths are the token [$(inherited)] alone: the space after the token is
    trimmed away. *)
Theorem X10_no_framework (deps : list ProjectSpecDependency) :
  Forall (λ d, is_truthy (framework d) = false) deps →
  constructFrameworkSearchPaths deps = "$(inherited)".
Proof.
  intros Hnone. unfold constructFrameworkSearchPaths.
  rewrite SearchPathsMore.filter_none; [done|].
  eapply Forall_impl; [exact Hnone|]. intros d Hd. simpl. by rewrite Hd.
Qed.

(** X10 at two SDK dependencies. *)
Lemma X10_witness :
  constructFrameworkSearchPaths
    [sdk_dependency "CoreLocation.framework"; sdk_dependency "UIKit.framework"]
  = "$(inherited)".
Proof.
  apply X10_no_framework. repeat constructor.
Defined.

(** X11.  The framework search paths start with the token [$(inherited)],
    whatever the dependencies are. *)
Theorem X11_framework_token (deps : list ProjectSpecDependency) :
  startsWith "$(inherited)" (constructFrameworkSearchPaths deps) = true.
Proof.
  unfold constructFrameworkSearchPaths.
  destruct (SearchPathsMore.trim_keeps_token
              (join " "
                 (map (λ d, Path.dirname (default EmptyString (framework d)))
                    (filter (λ d, is_truthy (framework d) = true) deps))))
    as [tail ->].
  apply SearchPaths.startsWith_app.
Qed.

(** X12.  A dependency name that is empty, or that an earlier dependency
    has, changes nothing in the header search paths. *)
Theorem X12_repeated_name IOS_DIR (before after : list string) name :
  name = EmptyString ∨ name ∈ before →
  podsToSearchForHeaders (before ++ name :: after)
  = podsToSearchForHeaders (before ++ after) ∧
  constructHeaderSearchPaths IOS_DIR (before ++ name :: after)
  = constructHeaderSearchPaths IOS_DIR (before ++ after).
Proof.
  intros Hname.
  assert (podsToSearchForHeaders (before ++ name :: after)
          = podsToSearchForHeaders (before ++ after)) as Hpods.
  { unfold podsToSearchForHeaders, set_of.
    change ([EmptyString] ++ (before ++ name :: after) ++ FIXED_PODS)%list
      with (EmptyString :: (before ++ name :: after) ++ FIXED_PODS)%list.
    change ([EmptyString] ++ (before ++ after) ++ FIXED_PODS)%list
      with (EmptyString :: (before ++ after) ++ FIXED_PODS)%list.
    simpl fold_left. rewrite <- !app_assoc. rewrite <- app_comm_cons.
    apply SearchPathsMore.fold_set_add_known.
    - unfold set_add. simpl. apply NoDup_singleton.
    - destruct Hname as [->|Hin]; [left|by right].
      unfold set_add. simpl. by left. }
  split; [exact Hpods|].
  unfold constructHeaderSearchPaths. by rewrite Hpods.
Qed.

(** X12 at the dependencies [Y], [Yoga], [Y]. *)
Lemma X12_witness :
  constructHeaderSearchPaths Samples.root (["Y"; "Yoga"] ++ "Y" :: [])
  = constructHeaderSearchPaths Samples.root (["Y"; "Yoga"] ++ []).
Proof.
  apply (X12_repeated_name Samples.root ["Y"; "Yoga"] [] "Y").
  right. apply (bool_decide_unpack _). vm_compute. exact I.
Defined.

(** X13.  The header search paths are for at least ten names and for at
    most ten more than there are dependencies. *)
Theorem X13_pods_count (deps : list string) :
  (10 ≤ length (podsToSearchForHeaders deps) ≤ 10 + length deps)%nat.
Proof. apply SearchPathsMore.pods_length. Qed.

(** X14.  When the dependency names are distinct, not empty and none of the
    fixed names, the names searched for headers are the empty name, the
    dependency names and the fixed names, in this order. *)
Theorem X14_pods_in_order (deps : list string) :
  NoDup deps →
  Forall (λ name, name ≠ EmptyString ∧ name ∉ FIXED_PODS) deps →
  podsToSearchForHeaders deps = (EmptyString :: deps ++ FIXED_PODS)%list.
Proof.
  intros Hnd Hfresh. unfold podsToSearchForHeaders, set_of.
  apply (SearchPathsMore.fold_set_add_fresh _ []). simpl.
  rewrite Forall_forall in Hfresh.
  pose proof SearchPathsMore.fixed_names_NoDup as Hfixed.
  apply NoDup_cons in Hfixed as [Hempty Hfixed].
  apply NoDup_cons. split.
  - rewrite elem_of_app. intros [Hin|Hin]; [|done].
    by destruct (Hfresh _ Hin).
  - apply NoDup_app. split; [done|]. split; [|done].
    intros x Hx. by destruct (Hfresh _ Hx).
Qed.

(** X14 at the dependencies [UMCore] and [EXLocation]. *)
Lemma X14_witness :
  podsToSearchForHeaders ["UMCore"; "EXLocation"]
  = (EmptyString :: ["UMCore"; "EXLocation"] ++ FIXED_PODS)%list.
Proof.
  apply X14_pods_in_order.
  - apply (bool_decide_unpack _). vm_compute. exact I.
  - apply (bool_decide_unpack _). vm_compute. exact I.
Defined.

(** ** More on the bundle identifier *)

Module BundleIdMore.
Import Js XcodeGen Words SearchPaths.

Lemma ok_out_not_upper a : ok_out a → is_upper a = false.
Proof.
  destruct a as [[] [] [] [] [] [] [] []]; vm_compute; congruence.
Qed.

Lemma ok_out_not_separator a : ok_out a → separator a = false.
Proof.
  destruct a as [[] [] [] [] [] [] [] []]; vm_compute; congruence.
Qed.

Lemma upper_not_separator a : is_upper a = true → separator a = false.
Proof.
  destruct a as [[] [] [] [] [] [] [] []]; vm_compute; congruence.
Qed.

Lemma ok_out_no_prefix p x s :
  is_upper p = true → Forall ok_out (chars s) →
  startsWith (String p x) s = false.
Proof.
  intros Hp Hs. destruct s as [|a t]; [done|].
  simpl. destruct (decide (p = a)) as [<-|]; [|done].
  simpl in Hs. apply Forall_cons in Hs as [Ha _].
  apply ok_out_not_upper in Ha. congruence.
Qed.

Lemma collapseRuns_fixed s : ∀ in_run,
  Forall ok_out (chars s) → collapseRuns separator in_run s = s.
Proof.
  induction s as [|a t IH]; intros in_run Hs; [done|].
  simpl in Hs. apply Forall_cons in Hs as [Ha Ht].
  simpl. rewrite (ok_out_not_separator a Ha). by rewrite IH.
Qed.

Lemma no_capital_ahead s :
  Forall ok_out (chars s) → capital_ahead s = false.
Proof.
  unfold capital_ahead. induction s as [|a t IH]; intros Hs; [done|].
  simpl in Hs. apply Forall_cons in Hs as [Ha Ht].
  simpl. destruct (is_char "." a); [by apply IH|].
  by apply ok_out_not_upper.
Qed.

Lemma dotCapitals_fixed s : ∀ in_run,
  Forall ok_out (chars s) → dotCapitals in_run s = s.
Proof.
  induction s as [|a t IH]; intros in_run Hs; [done|].
  simpl in Hs. apply Forall_cons in Hs as [Ha Ht].
  simpl. rewrite (ok_out_not_upper a Ha), (no_capital_ahead t Ht).
  rewrite andb_false_r. by rewrite IH.
Qed.

(** A name in the alphabet of the identifiers is its own identifier. *)
Lemma bundleId_fixed s :
  Forall ok_out (chars s) → podNameToBundleId s = s.
Proof.
  intros Hs. rewrite BundleId.podNameToBundleId_words.
  unfold bundleId, replacePrefix.
  rewrite (ok_out_no_prefix "U" "M" s) by done.
  rewrite (ok_out_no_prefix "E" "X" s) by done.
  rewrite collapseRuns_fixed by done. by apply dotCapitals_fixed.
Qed.

Lemma collapseRuns_keep a t in_run :
  separator a = false →
  collapseRuns separator in_run (String a t)
  = String a (collapseRuns separator false t).
Proof. intros Ha. simpl. by rewrite Ha. Qed.

Lemma dotCapitals_keep a t in_run :
  is_upper a = false → is_char "." a = false →
  dotCapitals in_run (String a t) = String a (dotCapitals false t).
Proof. intros Hu Hd. simpl. by rewrite Hu, Hd. Qed.

(** The two steps after the prefixes leave a lower-case word at the front
    as it is. *)
Lemma words_keep word rest :
  Forall (λ a, separator a = false ∧ is_upper a = false ∧
               is_char "." a = false) (chars word) →
  dotCapitals false (collapseRuns separator false (word ++ rest))
  = word ++ dotCapitals false (collapseRuns separator false rest).
Proof.
  induction word as [|a t IH]; intros Hw; [done|].
  simpl in Hw. apply Forall_cons in Hw as [(Hs & Hu & Hd) Ht].
  rewrite !append_cons, collapseRuns_keep, dotCapitals_keep by done.
  by rewrite IH.
Qed.

Lemma bundleId_EX rest :
  podNameToBundleId ("EX" ++ rest)
  = "expo" ++ dotCapitals false (collapseRuns separator false rest).
Proof.
  rewrite BundleId.podNameToBundleId_words.
  unfold bundleId, replacePrefix.
  change ("EX" ++ rest) with (String "E" (String "X" rest)).
  change (startsWith "UM" (String "E" (String "X" rest))) with false.
  cbv iota.
  change (startsWith "EX" (String "E" (String "X" rest))) with true.
  cbv iota.
  change (drop_str (String.length "EX") (String "E" (String "X" rest)))
    with rest.
  apply words_keep. repeat constructor.
Qed.

Lemma bundleId_UM rest :
  podNameToBundleId ("UM" ++ rest)
  = "unimodules" ++ dotCapitals false (collapseRuns separator false rest).
Proof.
  rewrite BundleId.podNameToBundleId_words.
  unfold bundleId, replacePrefix.
  change ("UM" ++ rest) with (String "U" (String "M" rest)).
  change (startsWith "UM" (String "U" (String "M" rest))) with true.
  cbv iota.
  change (drop_str (String.length "UM") (String "U" (String "M" rest)))
    with rest.
  change (startsWith "EX" ("unimodules" ++ rest)) with false.
  cbv iota.
  apply words_keep. repeat constructor.
Qed.

Lemma bundleId_leading_dot a t :
  is_upper a = true →
  startsWith "UM" (String a t) = false →
  startsWith "EX" (String a t) = false →
  ∃ rest, podNameToBundleId (String a t)
          = String "." (String (lower_char a) rest).
Proof.
  intros Hu HUM HEX. rewrite BundleId.podNameToBundleId_words.
  unfold bundleId, replacePrefix. rewrite HUM, HEX.
  rewrite collapseRuns_keep by (by apply upper_not_separator).
  simpl. rewrite Hu. by eexists.
Qed.

End BundleIdMore.

(** X15.  The names that [podNameToBundleId] leaves as they are, are the
    names made of lower-case letters, digits and dots. *)
Theorem X15_bundle_id_fixed_points (podName : string) :
  podNameToBundleId podName = podName ↔
  Forall Words.ok_out (chars podName).
Proof.
  split.
  - intros <-. apply Alphabet.bundleId_alphabet.
  - apply BundleIdMore.bundleId_fixed.
Qed.

(** X16.  Deriving the bundle identifier of a bundle identifier changes
    nothing. *)
Theorem X16_bundle_id_idempotent (podName : string) :
  podNameToBundleId (podNameToBundleId podName) = podNameToBundleId podName.
Proof.
  apply BundleIdMore.bundleId_fixed, Alphabet.bundleId_alphabet.
Qed.

(** X17.  After the prefix [EX] or [UM] has become [expo] or [unimodules],
    the rest of the name is rewritten on its own: the second prefix is not
    looked for in a name that had the first, and the word put in place of a
    prefix is not rewritten. *)
Theorem X17_bundle_id_prefixes (rest : string) :
  podNameToBundleId ("EX" ++ rest)
  = "expo" ++ Words.dotCapitals false
                (Words.collapseRuns Words.separator false rest) ∧
  podNameToBundleId ("UM" ++ rest)
  = "unimodules" ++ Words.dotCapitals false
                      (Words.collapseRuns Words.separator false rest).
Proof.
  split; [apply BundleIdMore.bundleId_EX | apply BundleIdMore.bundleId_UM].
Qed.

(** X18.  The identifier of a name that starts with a capital, and with
    neither [UM] nor [EX], starts with a dot, followed by that capital in
    lower case. *)
Theorem X18_bundle_id_leading_dot (first : ascii) (rest : string) :
  is_upper first = true →
  startsWith "UM" (String first rest) = false →
  startsWith "EX" (String first rest) = false →
  ∃ tail, podNameToBundleId (String first rest)
          = String "." (String (lower_char first) tail).
Proof. apply BundleIdMore.bundleId_leading_dot. Qed.

(** X18 at the name [React-Core]. *)
Lemma X18_witness :
  ∃ tail, podNameToBundleId "React-Core" = String "." (String "r" tail).
Proof.
  apply (X18_bundle_id_leading_dot "R" "eact-Core"); reflexivity.
Defined.

(** ** More on the generator and on the tasks *)

Module GeneratorMore.
Import Js IO XcodeGen Reading.

(** What [generateXcodeProjectAsync] does when the generator returns
    without touching the files. *)
Lemma generate_untouched EXPOTOOLS_DIR toJSON spawnAsync dir spec fs :
  let specPath := Path.join [dir; spec_name spec ++ ".spec.json"] in
  let written : Files := <[specPath := toJSON spec]> fs in
  spawnAsync "yarn"
    ["--silent"; "run"; "xcodegen"; "--quiet"; "--spec"; specPath]
    EXPOTOOLS_DIR written = Returned tt written →
  generateXcodeProjectAsync EXPOTOOLS_DIR toJSON spawnAsync dir spec fs
  = Returned (Path.join [dir; spec_name spec ++ ".xcodeproj"])
             (delete specPath fs).
Proof.
  intros specPath written Hcall.
  unfold generateXcodeProjectAsync. fold specPath.
  unfold bind at 1. unfold outputJSON, modify. fold written.
  rewrite (Generator.bind_Returned _ _ _ tt written Hcall).
  unfold bind, remove, modify, ret. unfold written. f_equal.
  apply (delete_insert_eq (M := gmap string)).
Qed.

Lemma generate_thrown EXPOTOOLS_DIR toJSON spawnAsync dir spec fs fs' :
  let specPath := Path.join [dir; spec_name spec ++ ".spec.json"] in
  spawnAsync "yarn"
    ["--silent"; "run"; "xcodegen"; "--quiet"; "--spec"; specPath]
    EXPOTOOLS_DIR (<[specPath := toJSON spec]> fs) = Thrown fs' →
  generateXcodeProjectAsync EXPOTOOLS_DIR toJSON spawnAsync dir spec fs
  = Thrown fs'.
Proof.
  intros specPath Hcall.
  unfold generateXcodeProjectAsync. fold specPath.
  unfold bind at 1. unfold outputJSON, modify.
  by rewrite (Generator.bind_Thrown _ _ _ fs' Hcall).
Qed.

Lemma createSpec_sources IOS_DIR podspec resolver n :
  Semver.major (version podspec) = Some n →
  ∃ spec src,
    createSpecFromPodspecAsync IOS_DIR podspec resolver = Some spec ∧
    spec_name spec = podspec_name podspec ∧
    sources_of spec = Some [src] ∧
    includes src = Some (arrayize (source_files podspec)) ∧
    excludes src
    = Some ([ INFO_PLIST_FILENAME;
              (podspec_name podspec ++ ".spec.json")%string;
              "*.xcodeproj"; "*.xcframework"; "*.podspec" ]
            ++ arrayize (exclude_files podspec))%list ∧
    (∃ i, info_of spec = Some i ∧ info_path i = INFO_PLIST_FILENAME).
Proof.
  intros Hn. unfold createSpecFromPodspecAsync. rewrite Hn. simpl.
  eexists _, _. split; [done|]. split; [done|].
  unfold sources_of, info_of, target_of. simpl.
  rewrite decide_True by done. simpl.
  split; [done|]. split; [done|]. split; [done|].
  eexists. by split.
Qed.

End GeneratorMore.

Module TasksMore.
Import IO Tasks Reading.

Section WithPreBuilder.

Context {Package Parcel : Type}.
Variable pkg : Parcel → Package.
Variable packageName : Package → string.
Variable canPrebuildPackage : Package → bool.
Variable green : string → string.
Variable rejects : list (Effect Package) → Effect Package → bool.

Lemma prebuilt_app (t1 t2 : list (Effect Package)) :
  prebuilt (t1 ++ t2) = (prebuilt t1 ++ prebuilt t2)%list.
Proof.
  induction t1 as [|e t1 IH]; [done|].
  destruct e; simpl; by rewrite IH.
Qed.

Lemma cleaned_app (t1 t2 : list (Effect Package)) :
  cleaned (t1 ++ t2) = (cleaned t1 ++ cleaned t2)%list.
Proof.
  induction t1 as [|e t1 IH]; [done|].
  destruct e; simpl; rewrite IH; [done..| |done].
  by rewrite app_assoc.
Qed.

Lemma prebuilt_announced (packages : list Package) :
  prebuilt (flat_map (announced Package packageName green) packages)
  = packages.
Proof.
  induction packages as [|p packages IH]; [done|]. simpl. by rewrite IH.
Qed.

Lemma cleaned_announced (packages : list Package) :
  cleaned (flat_map (announced Package packageName green) packages) = [].
Proof.
  induction packages as [|p packages IH]; [done|]. simpl. by rewrite IH.
Qed.

(** The loop builds the first of the packages, and all of them when it
    returns. *)
Lemma prebuild_loop_built parcels : ∀ trace,
  ∃ built rest,
    filter (λ p, canPrebuildPackage p = true) (map pkg parcels)
    = (built ++ rest)%list ∧
    trace_of
      (for_of parcels
         (λ parcel,
            if negb (canPrebuildPackage (pkg parcel)) then ret tt
            else
              await emit Package
                      (logger_info Package "👷‍♀️ Prebuilding %s"
                         [green (packageName (pkg parcel))]) ;;
              prebuildPackageAsync Package rejects (pkg parcel) true) trace)
    = (trace ++ flat_map (announced Package packageName green) built)%list ∧
    (∀ after,
       for_of parcels
         (λ parcel,
            if negb (canPrebuildPackage (pkg parcel)) then ret tt
            else
              await emit Package
                      (logger_info Package "👷‍♀️ Prebuilding %s"
                         [green (packageName (pkg parcel))]) ;;
              prebuildPackageAsync Package rejects (pkg parcel) true) trace
       = Returned tt after → rest = []).
Proof.
  induction parcels as [|parcel parcels IH]; intros trace; simpl.
  - exists [], []. split; [done|]. split; [|done].
    unfold ret. simpl. by rewrite app_nil_r.
  - destruct (canPrebuildPackage (pkg parcel)) eqn:Hcan.
    + change (negb true) with false. cbv iota.
      rewrite filter_cons_True by done.
      pose proof (TaskFacts.announce_and_build packageName green rejects
                    (pkg parcel) trace) as Hbody.
      match type of Hbody with
      | _ = (if ?b then _ else _) => revert Hbody; destruct b; intros Hbody
      end.
      * rewrite (Generator.bind_Thrown _ _ _ _ Hbody).
        exists [pkg parcel], (filter (λ p, canPrebuildPackage p = true)
                                (map pkg parcels)).
        split; [done|]. split; [|done].
        simpl. done.
      * rewrite (Generator.bind_Returned _ _ _ _ _ Hbody).
        destruct (IH (trace ++ announced Package packageName green
                                 (pkg parcel))%list)
          as (built & rest & Hsplit & Htrace & Hreturned).
        exists (pkg parcel :: built), rest. split; [by rewrite Hsplit|].
        split; [|exact Hreturned].
        rewrite Htrace. simpl flat_map. by rewrite <- !app_assoc.
    + change (negb false) with true. cbv iota.
      rewrite filter_cons_False by (rewrite Hcan; done).
      rewrite (Generator.bind_Returned _ _ _ tt trace eq_refl).
      apply IH.
Qed.

Lemma prebuild_built parcels trace :
  ∃ built rest,
    filter (λ p, canPrebuildPackage p = true) (map pkg parcels)
    = (built ++ rest)%list ∧
    trace_of
      (prebuildPackages Package Parcel pkg packageName canPrebuildPackage
         green rejects parcels trace)
    = (trace ++ logger_log Package ::
       flat_map (announced Package packageName green) built)%list ∧
    (∀ after,
       prebuildPackages Package Parcel pkg packageName canPrebuildPackage
         green rejects parcels trace = Returned tt after → rest = []).
Proof.
  unfold prebuildPackages.
  rewrite (Generator.bind_Returned (emit Package (logger_log Package)) _
             trace tt (trace ++ [logger_log Package])%list eq_refl).
  destruct (prebuild_loop_built parcels (trace ++ [logger_log Package]))
    as (built & rest & Hsplit & Htrace & Hreturned).
  exists built, rest. split; [exact Hsplit|]. split; [|exact Hreturned].
  rewrite Htrace. by rewrite <- app_assoc.
Qed.

Lemma clean_cleaned parcels trace :
  cleaned
    (trace_of
       (cleanPrebuilds Package Parcel pkg canPrebuildPackage rejects
          parcels trace))
  = (cleaned trace ++
     filter (λ p, canPrebuildPackage p = true) (map pkg parcels))%list.
Proof.
  rewrite TaskFacts.cleanPrebuilds_trace.
  destruct (filter _ (map pkg parcels)) as [|p packages].
  - unfold trace_of. rewrite cleaned_app. simpl. by rewrite app_nil_r.
  - cbv zeta.
    destruct (clean_rejects Package rejects trace (p :: packages));
      unfold trace_of; rewrite cleaned_app; simpl; by rewrite app_nil_r.
Qed.

End WithPreBuilder.

End TasksMore.

(** X19.  When the generator returns and leaves the files as they are,
    [generateXcodeProjectAsync] leaves the files as they were before the
    call, unless there was a file at the path of the spec file: that file is
    gone. *)
Theorem X19_spec_file_replaced EXPOTOOLS_DIR toJSON spawnAsync dir spec
  (fs : Files) :
  let specPath := Path.join [dir; spec_name spec ++ ".spec.json"] in
  let written : Files := <[specPath := toJSON spec]> fs in
  spawnAsync "yarn"
    ["--silent"; "run"; "xcodegen"; "--quiet"; "--spec"; specPath]
    EXPOTOOLS_DIR written = Returned tt written →
  ∃ fs',
    generateXcodeProjectAsync EXPOTOOLS_DIR toJSON spawnAsync dir spec fs
    = Returned (Path.join [dir; spec_name spec ++ ".xcodeproj"]) fs' ∧
    (∀ file, file ≠ specPath → fs' !! file = fs !! file) ∧
    fs' !! specPath = None ∧
    (fs !! specPath = None → fs' = fs) ∧
    (is_Some (fs !! specPath) → fs' ≠ fs).
Proof.
  intros specPath written Hcall. exists (delete specPath fs).
  split; [by apply GeneratorMore.generate_untouched|].
  pose proof (lookup_delete_eq (M := gmap string) fs specPath) as Hgone.
  split; [intros file Hfile; by apply lookup_delete_ne|].
  split; [exact Hgone|].
  split; [apply delete_id|].
  intros [old Hold] Heq.
  assert (fs !! specPath = None) as Hnone; [|congruence].
  rewrite <- Hgone. f_equal. symmetry. exact Heq.
Qed.

(** X19 with a generator that returns and produces nothing, and a file at
    the path of the spec file. *)
Lemma X19_witness :
  ∃ fs',
    generateXcodeProjectAsync Samples.tools Samples.json Samples.idle
      "/tmp/build" Samples.empty_spec
      {[ "/tmp/build/EXLocation.spec.json" := "kept by hand" ]}
    = Returned "/tmp/build/EXLocation.xcodeproj" fs' ∧
    fs' !! "/tmp/build/EXLocation.spec.json" = None.
Proof.
  destruct (X19_spec_file_replaced Samples.tools Samples.json Samples.idle
              "/tmp/build" Samples.empty_spec
              {[ "/tmp/build/EXLocation.spec.json" := "kept by hand" ]})
    as (fs' & Hrun & _ & Hgone & _).
  - reflexivity.
  - exists fs'. split; [exact Hrun | exact Hgone].
Defined.

(** X20.  The spec made from a manifest has one source, which excludes the
    generated [Info.plist], that is the path of the target's info, every
    file that the manifest excludes, and the spec file: the file that
    [generateXcodeProjectAsync] writes for this spec, and that stays when
    the generator throws, is [dir] joined with a name that the source
    excludes. *)
Theorem X20_spec_file_excluded IOS_DIR EXPOTOOLS_DIR toJSON spawnAsync
  podspec resolver n dir (fs : Files) :
  Semver.major (version podspec) = Some n →
  (∀ args files, spawnAsync "yarn" args EXPOTOOLS_DIR files = Thrown files) →
  ∃ spec src excluded i file,
    createSpecFromPodspecAsync IOS_DIR podspec resolver = Some spec ∧
    sources_of spec = Some [src] ∧
    excludes src = Some excluded ∧
    info_of spec = Some i ∧
    info_path i ∈ excluded ∧
    (∀ pattern, pattern ∈ arrayize (exclude_files podspec) →
                pattern ∈ excluded) ∧
    file ∈ excluded ∧
    generateXcodeProjectAsync EXPOTOOLS_DIR toJSON spawnAsync dir spec fs
    = Thrown (<[Path.join [dir; file] := toJSON spec]> fs).
Proof.
  intros Hn Hthrows.
  destruct (GeneratorMore.createSpec_sources IOS_DIR podspec resolver n Hn)
    as (spec & src & Hs & Hname & Hsrc & _ & Hexcl & i & Hi & Hpath).
  exists spec, src. eexists. exists i, (podspec_name podspec ++ ".spec.json").
  split; [exact Hs|]. split; [exact Hsrc|]. split; [exact Hexcl|].
  split; [exact Hi|]. split; [rewrite Hpath; by left|].
  split.
  { intros pattern Hp. rewrite elem_of_app. by right. }
  split; [right; by left|].
  apply GeneratorMore.generate_thrown. rewrite Hname. apply Hthrows.
Qed.

(** X20 at the manifest [Samples.location], with a generator that
    throws. *)
Lemma X20_witness :
  ∃ spec src excluded,
    createSpecFromPodspecAsync Samples.root Samples.location Samples.only_Y
    = Some spec ∧
    sources_of spec = Some [src] ∧
    excludes src = Some excluded ∧
    "EXLocation.spec.json" ∈ excluded ∧
    generateXcodeProjectAsync Samples.tools Samples.json Samples.failing
      "/tmp/build" spec ∅
    = Thrown {[ "/tmp/build/EXLocation.spec.json" := "{}" ]}.
Proof.
  destruct (X20_spec_file_excluded Samples.root Samples.tools Samples.json
              Samples.failing Samples.location Samples.only_Y 1%N
              "/tmp/build" ∅)
    as (spec & src & excluded & i & file & Hs & Hsrc & Hexcl & _ & _ & _ &
        _ & Hrun).
  - vm_compute. reflexivity.
  - reflexivity.
  - exists spec, src, excluded. split; [exact Hs|]. split; [exact Hsrc|].
    split; [exact Hexcl|].
    vm_compute in Hs. injection Hs as <-.
    vm_compute in Hsrc. injection Hsrc as <-.
    vm_compute in Hexcl. injection Hexcl as <-.
    split.
    + apply (bool_decide_unpack _). vm_compute. exact I.
    + vm_compute. reflexivity.
Defined.

(** X21.  Prebuilding and then cleaning, for the same parcels, whatever
    the pre-builder's operations do: the packages handed to the prebuild
    operation are the first of the packages that can be prebuilt, in order,
    and all of them when the prebuild task returns; the packages handed to
    the clean operation are all the packages that can be prebuilt, also
    those that were never built because an earlier build was rejected. *)
Theorem X21_clean_what_was_prebuilt {Package Parcel : Type}
  (pkg : Parcel → Package) (packageName : Package → string)
  (canPrebuildPackage : Package → bool) (green : string → string)
  (rejects : list (Tasks.Effect Package) → Tasks.Effect Package → bool)
  (parcels : list Parcel) :
  let packages :=
    filter (λ p, canPrebuildPackage p = true) (map pkg parcels) in
  let prebuild :=
    Tasks.prebuildPackages Package Parcel pkg packageName canPrebuildPackage
      green rejects parcels [] in
  let clean :=
    Tasks.cleanPrebuilds Package Parcel pkg canPrebuildPackage rejects
      parcels (trace_of prebuild) in
  prebuilt (trace_of prebuild) `prefix_of` packages ∧
  (∀ built, prebuild = Returned tt built → prebuilt built = packages) ∧
  cleaned (trace_of clean) = packages.
Proof.
  intros packages prebuild clean.
  destruct (TasksMore.prebuild_built pkg packageName canPrebuildPackage
              green rejects parcels [])
    as (built & rest & Hsplit & Htrace & Hreturned).
  fold prebuild in Htrace, Hreturned. fold packages in Hsplit.
  assert (prebuilt (trace_of prebuild) = built) as Hbuilt.
  { rewrite Htrace. simpl. apply TasksMore.prebuilt_announced. }
  split; [|split].
  - rewrite Hbuilt, Hsplit. by exists rest.
  - intros after Hafter. pose proof (Hreturned after Hafter) as ->.
    rewrite app_nil_r in Hsplit. rewrite Hsplit, <- Hbuilt.
    by rewrite Hafter.
  - unfold clean. rewrite TasksMore.clean_cleaned. rewrite Htrace. simpl.
    by rewrite TasksMore.cleaned_announced.
Qed.

(** X21 with a pre-builder whose operations resolve, for two packages. *)
Lemma X21_witness :
  ∃ built,
    Tasks.prebuildPackages string string id id (λ _, true) id
      Samples.resolves ["expo-a"; "expo-b"] [] = Returned tt built ∧
    prebuilt built = ["expo-a"; "expo-b"].
Proof.
  eexists. split; [vm_compute; reflexivity|].
  apply (proj1 (proj2 (X21_clean_what_was_prebuilt id id (λ _, true) id
                         Samples.resolves ["expo-a"; "expo-b"]))).
  vm_compute. reflexivity.
Defined.
